(** * Eurostat job-vacancy sheets: header reconstruction, wide-to-long
      reshaping and chart preparation

    Shallow embedding of [scripts/gerar_grafico_vagas.py] and
    [scripts/job_vacancy_sheet19.py].

    A worksheet read with [pd.read_excel(..., header=None)] is a rectangular
    frame of cells; it is modelled as a list of rows, a cell past the end of
    a row reading as empty.  The pandas operations the two scripts call
    ([iloc], [notna], [replace], [melt], [to_numeric], [dropna],
    [Categorical], [isin], [sort_values], [groupby], [to_csv]) are written
    out on that representation.  Row indices are Python integers, so that a
    negative index counts from the end.  What the scripts write to the file
    system is kept as a list of effects. *)

From Stdlib Require Import List String Ascii Bool Arith ZArith Lia.
From Stdlib Require Import Sorting.Sorted Sorting.Permutation.
From Stdlib Require Import Structures.OrderedTypeEx.
From Stdlib Require Import Floats.SpecFloat.
From Stdlib Require Import Numbers.DecimalString.
Import ListNotations.

Local Open Scope string_scope.
Local Open Scope list_scope.

(** ** Cells *)

(** A cell of the frame: a number (NaN for an empty spreadsheet cell; an
    integer cell is the number it denotes, whether or not a float64 holds
    it), a text, or the missing marker [pd.NA] that [replace] puts in. *)
Inductive Cell : Type :=
| CNum (f : spec_float)
| CStr (s : string)
| CNA.

Definition NaN : Cell := CNum S754_nan.

Definition is_nan (f : spec_float) : bool :=
  match f with S754_nan => true | _ => false end.

Definition is_finite (f : spec_float) : bool :=
  match f with S754_zero _ | S754_finite _ _ _ => true | _ => false end.

(** [pd.isna] / [pd.notna] on one cell. *)
Definition isna (c : Cell) : bool :=
  match c with
  | CNum f => is_nan f
  | CStr _ => false
  | CNA => true
  end.

Definition notna (c : Cell) : bool := negb (isna c).

(** The two functions of the Python and pandas run time that work on the
    digits of a float: [str] of a number, and the reading of a text by
    [pd.to_numeric(..., errors="coerce")], which is NaN when the text is not
    a number. *)
Class FloatText : Type := {
  str_float : spec_float -> string;
  parse_float : string -> spec_float
}.

(** Python's [str(value)]. *)
Definition str `{FloatText} (c : Cell) : string :=
  match c with
  | CNum f => str_float f
  | CStr s => s
  | CNA => "<NA>"
  end.

(** ** Column names *)

Definition enumerate {A : Type} (l : list A) : list (nat * A) :=
  combine (seq 0 (List.length l)) l.

(** [colunas[-1]]; the loop only reads it once [colunas] holds the label
    of column 0. *)
Definition ultimo (colunas : list string) : string := last colunas "".

(** One turn of the loop of [montar_nomes_colunas]. *)
Definition passo_coluna `{FloatText} (colunas : list string) (iv : nat * Cell) : list string :=
  let (idx, valor) := iv in
  if Nat.eqb idx 0 then colunas ++ ["geo"]
  else if isna valor then colunas ++ [(ultimo colunas ++ "_flag")%string]
  else colunas ++ [str valor].

Definition montar_nomes_colunas `{FloatText} (linha_cabecalho : list Cell) : list string :=
  fold_left passo_coluna (enumerate linha_cabecalho) [].

(** [_build_columns] of [job_vacancy_sheet19.py] is the same loop. *)
Definition _build_columns `{FloatText} (header_row : list Cell) : list string :=
  fold_left passo_coluna (enumerate header_row) [].

(** ** Exceptions *)

Inductive Exn : Type := IndexError | KeyError | ValueError.

Inductive Result (A : Type) : Type :=
| Ok (a : A)
| Raise (e : Exn).

Arguments Ok {A} a.
Arguments Raise {A} e.

Definition bind {A B : Type} (m : Result A) (k : A -> Result B) : Result B :=
  match m with
  | Ok a => k a
  | Raise e => Raise e
  end.

Notation "x <- m ;; k" := (bind m (fun x => k))
  (at level 61, m at next level, right associativity).

(** ** Positional access: [bruto.iloc[i]], [bruto.iloc[i:]], [bruto.iloc[i, j]] *)

Definition RawGrid : Type := list (list Cell).

(** A single position counts from the end when negative and raises
    outside [-n, n). *)
Definition iloc {A : Type} (l : list A) (i : Z) : Result A :=
  let n := Z.of_nat (List.length l) in
  let k := if (i <? 0)%Z then (n + i)%Z else i in
  if ((0 <=? k) && (k <? n))%Z then
    match nth_error l (Z.to_nat k) with
    | Some a => Ok a
    | None => Raise IndexError
    end
  else Raise IndexError.

(** A slice never raises: its start is clipped to the frame. *)
Definition iloc_from {A : Type} (l : list A) (i : Z) : list A :=
  let n := Z.of_nat (List.length l) in
  let k := if (i <? 0)%Z then Z.max 0 (n + i) else i in
  skipn (Z.to_nat k) l.

Definition iloc2 (bruto : RawGrid) (i j : Z) : Result Cell :=
  linha <- iloc bruto i ;; iloc linha j.

(** ** Frames with column labels *)

Record Frame : Type := {
  columns : list string;
  linhas : list (list Cell)
}.

(** Positions of the columns that carry a label, left to right. *)
Definition posicoes (cols : list string) (rotulo : string) : list nat :=
  map fst (filter (fun jc => snd jc =? rotulo) (enumerate cols)).

Definition celula (linha : list Cell) (j : nat) : Cell := nth j linha NaN.

(** [dados[dados[rotulo].notna()]].  With the label on one column
    [dados[rotulo]] is a Series and the rows are masked by it; without the
    label the lookup raises KeyError; with the label on several columns
    [dados[rotulo]] is a frame, and the loader cannot go on with a frame as
    mask and as identifier: the failure is given here, as a ValueError. *)
Definition filtrar_notna (rotulo : string) (dados : Frame) : Result Frame :=
  match posicoes (columns dados) rotulo with
  | [] => Raise KeyError
  | [j] => Ok {| columns := columns dados;
                 linhas := filter (fun linha => notna (celula linha j)) (linhas dados) |}
  | _ :: _ :: _ => Raise ValueError
  end.

(** Python's [s.endswith(sufixo)]. *)
Definition endswith (s sufixo : string) : bool :=
  let n := String.length s in
  let k := String.length sufixo in
  Nat.leb k n && String.eqb (substring (n - k) k s) sufixo.

(** [[col for col in colunas if col != "geo" and not col.endswith("_flag")]] *)
Definition coluna_de_valor (col : string) : bool :=
  negb (col =? "geo") && negb (endswith col "_flag").

Definition colunas_de_valor (colunas : list string) : list string :=
  filter coluna_de_valor colunas.

(** [dados[chaves]]: every key brings all the columns that carry it. *)
Definition selecionar (chaves : list string) (dados : Frame) : Frame :=
  let pos := flat_map (posicoes (columns dados)) chaves in
  {| columns := map (fun j => nth j (columns dados) "") pos;
     linhas := map (fun linha => map (celula linha) pos) (linhas dados) |}.

(** [.replace({":": pd.NA})] *)
Definition substituir (c : Cell) : Cell :=
  match c with
  | CStr s => if s =? ":" then CNA else c
  | _ => c
  end.

Definition replace (dados : Frame) : Frame :=
  {| columns := columns dados;
     linhas := map (map substituir) (linhas dados) |}.

(** [.melt(id_vars=id_var, var_name=var_name, value_name=value_name)].
    The name asked for the column of values must not be the label of a
    column of the frame: [melt] then raises ValueError.  Otherwise the long
    table holds one block per column other than the identifier, left to
    right, each block holding the rows top to bottom. *)
Definition melt (id_var var_name value_name : string) (dados : Frame)
  : Result (list (Cell * string * Cell)) :=
  if existsb (String.eqb value_name) (columns dados) then Raise ValueError
  else
    let g := hd 0 (posicoes (columns dados) id_var) in
    Ok (flat_map
          (fun jc : nat * string =>
             if snd jc =? id_var then []
             else map (fun linha => (celula linha g, snd jc, celula linha (fst jc)))
                      (linhas dados))
          (enumerate (columns dados))).

(** [pd.to_numeric(..., errors="coerce")] on one cell.  A number is kept as
    it is, which is what the code does to a float64 ([binary64] below).  A
    number that float64 does not hold, an integer cell beyond 2^53, is
    rounded by the code when its column turns to float64, and that depends
    on the other cells of the column: it is not followed here, and what is
    stated of the value read back is stated of float64 numbers. *)
Definition to_numeric `{FloatText} (c : Cell) : spec_float :=
  match c with
  | CNum f => f
  | CStr s => parse_float s
  | CNA => S754_nan
  end.

(** ** The tidy table *)

(** A row of the tidy table.  The quarter column is a [pd.Categorical]: the
    label is kept here and the ordered categories in the table. *)
Record TidyRecord : Type := {
  geo : Cell;
  trimestre : string;
  taxa_vaga : spec_float
}.

Record TidyFrame : Type := {
  nomes : list string;
  registros : list TidyRecord;
  categorias : list string
}.

Fixpoint unique (l : list string) : bool :=
  match l with
  | [] => true
  | x :: r => negb (existsb (String.eqb x) r) && unique r
  end.

(** [pd.Categorical(valores, categories=..., ordered=True)] refuses repeated
    categories. *)
Definition Categorical (categories : list string) : Result (list string) :=
  if unique categories then Ok categories else Raise ValueError.

(** [bruto.iloc[6, 2]] under [try] / [except]. *)
Definition ler_area_trabalho `{FloatText} (bruto : RawGrid) : option string :=
  match iloc2 bruto 6 2 with
  | Ok c => if notna c then Some (str c) else None
  | Raise _ => None
  end.

(** [carregar_tabela_vagas], from the frame [bruto] that [pd.read_excel]
    returned.  The result is [(arrumado, colunas_valor, area_trabalho)]. *)
Definition carregar_tabela_vagas `{FloatText} (bruto : RawGrid)
    (linha_cabecalho linha_inicio_dados : Z)
  : Result (TidyFrame * list string * option string) :=
  let area_trabalho := ler_area_trabalho bruto in
  cabecalho <- iloc bruto linha_cabecalho ;;
  let colunas := montar_nomes_colunas cabecalho in
  let dados := {| columns := colunas;
                  linhas := iloc_from bruto linha_inicio_dados |} in
  dados <- filtrar_notna "geo" dados ;;
  let colunas_valor := colunas_de_valor colunas in
  arrumado <- melt "geo" "trimestre" "taxa_vaga"
                   (replace (selecionar ("geo" :: colunas_valor) dados)) ;;
  let arrumado :=
    map (fun r => {| geo := fst (fst r); trimestre := snd (fst r);
                     taxa_vaga := to_numeric (snd r) |}) arrumado in
  let arrumado := filter (fun r => negb (is_nan (taxa_vaga r))) arrumado in
  categorias <- Categorical colunas_valor ;;
  Ok ({| nomes := ["geo"; "trimestre"; "taxa_vaga"];
         registros := arrumado;
         categorias := categorias |}, colunas_valor, area_trabalho).

(** [load_sheet19_table]: the same steps with rows 10 and 12 fixed, its own
    names for the columns of the long table and no area cell.  The result is
    [(tidy, value_columns)]. *)
Definition load_sheet19_table `{FloatText} (raw : RawGrid) : Result (TidyFrame * list string) :=
  header_row <- iloc raw 10 ;;
  let columns_ := _build_columns header_row in
  let data := {| columns := columns_; linhas := iloc_from raw 12 |} in
  data <- filtrar_notna "geo" data ;;
  let value_columns := colunas_de_valor columns_ in
  tidy <- melt "geo" "quarter" "vacancy_rate"
               (replace (selecionar ("geo" :: value_columns) data)) ;;
  let tidy :=
    map (fun r => {| geo := fst (fst r); trimestre := snd (fst r);
                     taxa_vaga := to_numeric (snd r) |}) tidy in
  let tidy := filter (fun r => negb (is_nan (taxa_vaga r))) tidy in
  categories <- Categorical value_columns ;;
  Ok ({| nomes := ["geo"; "quarter"; "vacancy_rate"];
         registros := tidy;
         categorias := categories |}, value_columns).

(** ** The CSV file *)

(** A missing value is written as the empty field. *)
Definition campo `{FloatText} (c : Cell) : string :=
  if isna c then "" else str c.

Definition linha_csv `{FloatText} (r : TidyRecord) : list string :=
  [campo (geo r); trimestre r; str_float (taxa_vaga r)].

(** [tidy.to_csv(caminho, index=False)]: the line of column names, then one
    line per row of the table, top to bottom; a line is given as its
    fields. *)
Definition to_csv `{FloatText} (t : TidyFrame) : list (list string) :=
  nomes t :: map linha_csv (registros t).

(** ** The chart *)

(** Position of a label in the ordered categories: the code of the
    Categorical, absent (NaN) for a label that is no category. *)
Fixpoint codigo (categories : list string) (rotulo : string) : option nat :=
  match categories with
  | [] => None
  | c :: r => if c =? rotulo then Some 0
              else option_map S (codigo r rotulo)
  end.

(** [.isin(paises)] on one cell, [paises] being texts. *)
Definition isin (paises : list string) (c : Cell) : bool :=
  match c with
  | CStr s => existsb (String.eqb s) paises
  | _ => false
  end.

(** The text of a [geo] value; the rows that [isin] lets through all hold
    a text there. *)
Definition texto (c : Cell) : string :=
  match c with
  | CStr s => s
  | _ => ""
  end.

(** Order of the codes, NaN last. *)
Definition codigo_leb (a b : option nat) : bool :=
  match a, b with
  | Some x, Some y => Nat.leb x y
  | _, None => true
  | None, Some _ => false
  end.

(** Order of the rows under [sort_values(["geo", "trimestre"])]: the [geo]
    texts first, then the codes of the quarter. *)
Definition chave_leb (categories : list string) (r1 r2 : TidyRecord) : bool :=
  match String.compare (texto (geo r1)) (texto (geo r2)) with
  | Lt => true
  | Gt => false
  | Eq => codigo_leb (codigo categories (trimestre r1))
                     (codigo categories (trimestre r2))
  end.

(** A stable sort: rows with equal keys keep their order. *)
Fixpoint inserir {A : Type} (leb : A -> A -> bool) (x : A) (l : list A) : list A :=
  match l with
  | [] => [x]
  | y :: r => if leb x y then x :: y :: r else y :: inserir leb x r
  end.

Fixpoint ordenar {A : Type} (leb : A -> A -> bool) (l : list A) : list A :=
  match l with
  | [] => []
  | x :: r => inserir leb x (ordenar leb r)
  end.

Definition sort_values (categories : list string) (l : list TidyRecord)
  : list TidyRecord :=
  ordenar (chave_leb categories) l.

(** [recorte.groupby("geo")]: the keys in increasing order, each with its
    rows in the order of the table. *)
Definition groupby (l : list TidyRecord) : list (string * list TidyRecord) :=
  let chaves :=
    ordenar String.leb (nodup string_dec (map (fun r => texto (geo r)) l)) in
  map (fun g => (g, filter (fun r => texto (geo r) =? g) l)) chaves.

(** [grupo["trimestre"].astype(str)] on one row.  A quarter outside the
    categories is read as the text of a missing value; the tables that the
    loaders return have none. *)
Definition astype_str (categories : list string) (r : TidyRecord) : string :=
  match codigo categories (trimestre r) with
  | Some _ => trimestre r
  | None => "nan"
  end.

(** One call of [ax.plot(x, y, marker="o", label=geo)]. *)
Record Serie : Type := {
  label : string;
  xs : list string;
  ys : list spec_float
}.

Record Figura : Type := {
  title : string;
  ylabel : string;
  xlabel : string;
  series : list Serie
}.

(** A path, as its components. *)
Definition Path : Type := list string.

Definition parent (p : Path) : Path := removelast p.

(** What a run does to the file system, oldest first. *)
Inductive Efeito : Type :=
| Mkdir (dir : Path)
| Savefig (caminho : Path) (fig : Figura).

(** Computations that may raise and that write to the file system: the
    effects so far go in, the result and the effects after it come out. *)
Definition IO (A : Type) : Type := list Efeito -> Result A * list Efeito.

Definition ret {A : Type} (a : A) : IO A := fun fs => (Ok a, fs).

Definition raise {A : Type} (e : Exn) : IO A := fun fs => (Raise e, fs).

Definition efeito (e : Efeito) : IO unit := fun fs => (Ok tt, fs ++ [e]).

Definition bindIO {A B : Type} (m : IO A) (k : A -> IO B) : IO B :=
  fun fs =>
    match m fs with
    | (Ok a, fs') => k a fs'
    | (Raise e, fs') => (Raise e, fs')
    end.

Notation "m >> k" := (bindIO m (fun _ => k))
  (at level 62, right associativity).

Definition desenhar (categories : list string) (recorte : list TidyRecord)
  : list Serie :=
  map (fun gg : string * list TidyRecord =>
         {| label := fst gg;
            xs := map (astype_str categories) (snd gg);
            ys := map taxa_vaga (snd gg) |})
      (groupby recorte).

(** [plotar_taxa_vagas].  [ordem_trimestres] is received and not read: the
    order of the quarters is the one of the categories of the table.  The
    table is taken to bear the columns that the function reads ([geo],
    [trimestre], [taxa_vaga]), and [mkdir] and [savefig] are recorded as
    effects that go through: what they may raise is not followed. *)
Definition plotar_taxa_vagas (dados_arrumados : TidyFrame)
    (ordem_trimestres : list string) (paises : list string)
    (nome_aba : string) (caminho_saida : Path) : IO unit :=
  let recorte :=
    filter (fun r => isin paises (geo r)) (registros dados_arrumados) in
  match recorte with
  | [] => raise ValueError
  | _ :: _ =>
    let recorte := sort_values (categorias dados_arrumados) recorte in
    efeito (Mkdir (parent caminho_saida)) >>
    efeito (Savefig caminho_saida
              {| title := ("Taxa de vagas de trabalho - " ++ nome_aba)%string;
                 ylabel := "Taxa de vagas (%)";
                 xlabel := "Trimestre";
                 series := desenhar (categorias dados_arrumados) recorte |})
  end.

(** [plot_job_vacancies] of [job_vacancy_sheet19.py].  The table is taken
    to bear the columns that the function reads ([geo], [quarter],
    [vacancy_rate]); [mkdir] and [savefig] as above. *)
Definition plot_job_vacancies (tidy_data : TidyFrame)
    (quarters_order : list string) (countries : list string)
    (output_path : Path) : IO unit :=
  let subset :=
    filter (fun r => isin countries (geo r)) (registros tidy_data) in
  match subset with
  | [] => raise ValueError
  | _ :: _ =>
    let subset := sort_values (categorias tidy_data) subset in
    efeito (Mkdir (parent output_path)) >>
    efeito (Savefig output_path
              {| title := "Eurostat Job Vacancy Rate – Sheet 19";
                 ylabel := "Vacancy rate (%)";
                 xlabel := "Quarter";
                 series := desenhar (categorias tidy_data) subset |})
  end.

(** ** File names: [slugificar] *)

(** A letter or digit of [[A-Za-z0-9]].  A text is the sequence of its
    UTF-8 bytes; the bytes of a character outside ASCII are all above 127,
    so that a run of characters outside the class is a run of such bytes. *)
Definition alnum (c : ascii) : bool :=
  let n := nat_of_ascii c in
  (Nat.leb 48 n && Nat.leb n 57)
  || (Nat.leb 65 n && Nat.leb n 90)
  || (Nat.leb 97 n && Nat.leb n 122).

(** [re.sub(r"[^A-Za-z0-9]+", "_", s)]: every maximal run of characters
    outside the class becomes one underscore.  [dentro] tells that the
    character before was part of such a run. *)
Fixpoint re_sub (dentro : bool) (s : string) : string :=
  match s with
  | EmptyString => EmptyString
  | String c r =>
    if alnum c then String c (re_sub false r)
    else if dentro then re_sub true r
         else String "_" (re_sub true r)
  end.

(** [s.lstrip(c)] and [s.rstrip(c)] for one character [c]. *)
Fixpoint lstrip_char (c : ascii) (s : string) : string :=
  match s with
  | EmptyString => EmptyString
  | String a r => if Ascii.eqb a c then lstrip_char c r else s
  end.

Fixpoint rstrip_char (c : ascii) (s : string) : string :=
  match s with
  | EmptyString => EmptyString
  | String a r =>
    let r' := rstrip_char c r in
    if (r' =? "") && Ascii.eqb a c then EmptyString else String a r'
  end.

Definition strip_char (c : ascii) (s : string) : string :=
  rstrip_char c (lstrip_char c s).

(** [s.lower()] on a text of ASCII letters, digits and underscores. *)
Definition lower_char (c : ascii) : ascii :=
  let n := nat_of_ascii c in
  if Nat.leb 65 n && Nat.leb n 90 then ascii_of_nat (n + 32) else c.

Fixpoint lower (s : string) : string :=
  match s with
  | EmptyString => EmptyString
  | String c r => String (lower_char c) (lower r)
  end.

Definition slugificar (nome_aba : string) : string :=
  let slug := lower (strip_char "_" (re_sub false nome_aba)) in
  if slug =? "" then "aba" else slug.

(** The names of the default output files of [fluxo_argumentos] and
    [fluxo_interativo]: [f"tabela_vagas_{slug_aba}.csv"] and
    [f"grafico_vagas_{slug_aba}.png"]. *)
Definition nome_csv_padrao (nome_aba : string) : string :=
  ("tabela_vagas_" ++ slugificar nome_aba ++ ".csv")%string.

Definition nome_grafico_padrao (nome_aba : string) : string :=
  ("grafico_vagas_" ++ slugificar nome_aba ++ ".png")%string.

(** ** The list of entities typed at the prompt: [solicitar_lista_paises] *)

(** Python's [s.strip()], which removes the white space of Unicode at both
    ends. *)
Class PyStrip : Type := {
  strip : string -> string
}.

(** [c in s] for one character. *)
Fixpoint contem (c : ascii) (s : string) : bool :=
  match s with
  | EmptyString => false
  | String a r => Ascii.eqb a c || contem c r
  end.

(** [s.split(sep)] for a separator of one character: the pieces between the
    separators, the empty ones too. *)
Fixpoint split (sep : ascii) (s : string) : list string :=
  match s with
  | EmptyString => [EmptyString]
  | String c r =>
    if Ascii.eqb c sep then EmptyString :: split sep r
    else match split sep r with
         | p :: ps => String c p :: ps
         | [] => [String c EmptyString]
         end
  end.

(** [solicitar_lista_paises], from the line that [input] returned. *)
Definition solicitar_lista_paises `{PyStrip} (padrao : list string)
    (linha : string) : list string :=
  let entrada := strip linha in
  if entrada =? "" then padrao
  else
    let separador := if contem ";" entrada then ";"%char else ","%char in
    map strip
        (filter (fun parte => negb (strip parte =? ""))
                (split separador entrada)).

(** ** Definitions used to state the properties *)

(** The labels that follow a column labelled [anterior], read off the
    description of the header rule: an empty cell takes the label before it
    with the flag suffix, any other cell its own text. *)
Fixpoint rotulos_seguintes `{FloatText} (anterior : string) (celulas : list Cell)
  : list string :=
  match celulas with
  | [] => []
  | c :: r =>
    let rotulo := if isna c then (anterior ++ "_flag")%string else str c in
    rotulo :: rotulos_seguintes rotulo r
  end.

(** The value columns with their positions in the sheet. *)
Definition posicoes_de_valor (colunas : list string) : list (nat * string) :=
  filter (fun jc => coluna_de_valor (snd jc)) (enumerate colunas).

(** The data rows that keep their place: the identifier is present. *)
Definition linhas_com_geo (dados : list (list Cell)) : list (list Cell) :=
  filter (fun linha => notna (celula linha 0)) dados.

(** What [to_numeric] reads in a cell once the sentinel is replaced. *)
Definition valor_lido `{FloatText} (c : Cell) : spec_float :=
  to_numeric (substituir c).

(** The row of the tidy table for one cell of a value column. *)
Definition registro_de `{FloatText} (jc : nat * string) (linha : list Cell)
  : TidyRecord :=
  {| geo := substituir (celula linha 0);
     trimestre := snd jc;
     taxa_vaga := valor_lido (celula linha (fst jc)) |}.

(** The rows of the tidy table that one value column gives. *)
Definition bloco `{FloatText} (dados : list (list Cell)) (jc : nat * string)
  : list TidyRecord :=
  filter (fun r => negb (is_nan (taxa_vaga r)))
         (map (registro_de jc) (linhas_com_geo dados)).

(** The table without the area text that comes with it. *)
Definition tabela_de (r : Result (TidyFrame * list string * option string))
  : Result (TidyFrame * list string) :=
  match r with
  | Ok (t, ordem, _) => Ok (t, ordem)
  | Raise e => Raise e
  end.

Definition spec_float_eq_dec (a b : spec_float) : {a = b} + {a <> b}.
Proof.
  decide equality;
    first [apply Bool.bool_dec | apply Pos.eq_dec | apply Z.eq_dec].
Defined.

Definition Cell_eq_dec (a b : Cell) : {a = b} + {a <> b}.
Proof.
  decide equality; first [apply spec_float_eq_dec | apply string_dec].
Defined.

(** The numbers that a float64 holds: the special values and the finite
    ones with a mantissa of 53 bits at most in the range of exponents of the
    format.  A number cell of another kind, such as an integer beyond 2^53,
    is not among them. *)
Definition binary64 (f : spec_float) : bool := valid_binary 53 1024 f.

(** The wide table of the round-trip property, keyed on entity and period:
    the value of the one row with that key.  A key that no row or several
    rows carry has no cell: pivoting needs the keys to be unique. *)
Definition com_chave (entidade : Cell) (periodo : string) (r : TidyRecord) : bool :=
  (if Cell_eq_dec (geo r) entidade then true else false)
  && (trimestre r =? periodo).

Definition pivot (regs : list TidyRecord) (entidade : Cell) (periodo : string)
  : option spec_float :=
  match filter (com_chave entidade periodo) regs with
  | [r] => Some (taxa_vaga r)
  | _ => None
  end.

(** The rows of one entity. *)
Definition da_entidade (g : string) (r : TidyRecord) : bool :=
  if Cell_eq_dec (geo r) (CStr g) then true else false.

(** A quarter comes no later than another in the order of the sheet. *)
Definition nao_depois (ordem : list string) (p q : string) : Prop :=
  exists a b, codigo ordem p = Some a /\ codigo ordem q = Some b /\ a <= b.

(** Every series of a figure is a requested entity with its rows of the
    table, the quarters along the series in the order [ordem]. *)
Definition series_em_ordem (t : TidyFrame) (ordem paises : list string)
    (fig : Figura) : Prop :=
  forall s, In s (series fig) ->
    exists grupo,
      Permutation grupo (filter (da_entidade (label s)) (registros t)) /\
      In (label s) paises /\
      xs s = map trimestre grupo /\
      ys s = map taxa_vaga grupo /\
      StronglySorted (nao_depois ordem) (xs s).

(** The rows of one entity lie together in a list of entities. *)
Definition contiguas (entidades : list string) : Prop :=
  forall i j k e,
    i < j -> j < k ->
    nth_error entidades i = Some e -> nth_error entidades k = Some e ->
    nth_error entidades j = Some e.

(** Texts, character by character. *)
Fixpoint todos (p : ascii -> bool) (s : string) : bool :=
  match s with
  | EmptyString => true
  | String c r => p c && todos p r
  end.

(** The letters and digits of a text, in order. *)
Fixpoint so_alnum (s : string) : string :=
  match s with
  | EmptyString => EmptyString
  | String c r => if alnum c then String c (so_alnum r) else so_alnum r
  end.

(** A small letter, a digit or the underscore. *)
Definition slug_char (c : ascii) : bool :=
  let n := nat_of_ascii c in
  (Nat.leb 48 n && Nat.leb n 57)
  || (Nat.leb 97 n && Nat.leb n 122)
  || Ascii.eqb c "_".

(** Letters, digits and single underscores only; with [dentro] the text
    moreover does not begin with an underscore. *)
Fixpoint limpo (dentro : bool) (s : string) : bool :=
  match s with
  | EmptyString => true
  | String c r =>
    if alnum c then limpo false r
    else Ascii.eqb c "_" && negb dentro && limpo true r
  end.

(** The text ends with the character. *)
Fixpoint termina (c : ascii) (s : string) : bool :=
  match s with
  | EmptyString => false
  | String a EmptyString => Ascii.eqb a c
  | String _ r => termina c r
  end.

(** The text begins with the character. *)
Definition comeca (c : ascii) (s : string) : bool :=
  match s with
  | EmptyString => false
  | String a _ => Ascii.eqb a c
  end.

(** The text holds the character twice in a row. *)
Fixpoint duplo (c : ascii) (s : string) : bool :=
  match s with
  | EmptyString => false
  | String a r => (Ascii.eqb a c && comeca c r) || duplo c r
  end.

(** [sep.join(nomes)] for a separator of one character. *)
Fixpoint intercalar (sep : ascii) (nomes : list string) : string :=
  match nomes with
  | [] => EmptyString
  | [n] => n
  | n :: r => (n ++ String sep (intercalar sep r))%string
  end.

(** A [strip] that knows the blank only, to run the definitions. *)
Definition PyStrip_amostra : PyStrip := {| strip := strip_char " " |}.

(** ** A sample reading of float texts *)

(** Enough of [str] and of the parser of [to_numeric] to run the
    definitions on sample sheets: the special values by their Python names,
    a finite float by mantissa and binary exponent. *)
Definition str_float_amostra (f : spec_float) : string :=
  match f with
  | S754_zero false => "0.0"
  | S754_zero true => "-0.0"
  | S754_infinity false => "inf"
  | S754_infinity true => "-inf"
  | S754_nan => "nan"
  | S754_finite s m e =>
    ((if s then "-" else "")
       ++ NilZero.string_of_uint (Pos.to_uint m)
       ++ "p" ++ NilZero.string_of_int (Z.to_int e))%string
  end.

Definition parse_float_amostra (s : string) : spec_float :=
  if s =? "inf" then S754_infinity false
  else if s =? "-inf" then S754_infinity true
  else if s =? "0.0" then S754_zero false
  else if s =? "-0.0" then S754_zero true
  else S754_nan.

Definition FloatText_amostra : FloatText :=
  {| str_float := str_float_amostra; parse_float := parse_float_amostra |}.

(** The float [m * 2^e]. *)
Definition num (m : positive) (e : Z) : Cell := CNum (S754_finite false m e).

(** A sheet with its header in row 0: two quarters, each followed by its
    flag column, and a closing note row without identifier. *)
Definition folha_amostra : RawGrid :=
  [ [CStr "TIME"; CStr "2022-Q1"; NaN; CStr "2022-Q2"; NaN];
    [CStr "Spain"; num 33 (-3); CStr "u"; CStr ":"; CStr "u"];
    [CStr "France"; num 5 (-1); NaN; num 11 (-2); NaN];
    [NaN; CStr "note"; NaN; NaN; NaN] ].

(** What the loader returns on the sample sheet. *)
Definition tabela_amostra : TidyFrame :=
  {| nomes := ["geo"; "trimestre"; "taxa_vaga"];
     registros :=
       [ {| geo := CStr "Spain"; trimestre := "2022-Q1";
            taxa_vaga := S754_finite false 33 (-3) |};
         {| geo := CStr "France"; trimestre := "2022-Q1";
            taxa_vaga := S754_finite false 5 (-1) |};
         {| geo := CStr "France"; trimestre := "2022-Q2";
            taxa_vaga := S754_finite false 11 (-2) |} ];
     categorias := ["2022-Q1"; "2022-Q2"] |}.

(** A sheet whose third header cell is a text that ends in the flag
    suffix. *)
Definition folha_com_sufixo : RawGrid :=
  [ [CStr "TIME"; CStr "2022-Q1"; CStr "red_flag"];
    [CStr "Spain"; num 33 (-3); num 7 0] ].

Definition tabela_com_sufixo : TidyFrame :=
  {| nomes := ["geo"; "trimestre"; "taxa_vaga"];
     registros :=
       [ {| geo := CStr "Spain"; trimestre := "2022-Q1";
            taxa_vaga := S754_finite false 33 (-3) |} ];
     categorias := ["2022-Q1"] |}.

(** A sheet with an infinite value. *)
Definition folha_infinita : RawGrid :=
  [ [CStr "TIME"; CStr "2022-Q1"];
    [CStr "Spain"; CNum (S754_infinity false)] ].

(** A sheet that names the same entity on two rows. *)
Definition folha_repetida : RawGrid :=
  [ [CStr "TIME"; CStr "2022-Q1"];
    [CStr "Spain"; num 1 0];
    [CStr "Spain"; num 1 1] ].

(** A sheet with two entities and two quarters. *)
Definition folha_dois_por_dois : RawGrid :=
  [ [CStr "TIME"; CStr "2022-Q1"; CStr "2022-Q2"];
    [CStr "Spain"; num 1 0; num 1 1];
    [CStr "France"; num 3 0; num 1 2] ].

Definition tabela_dois_por_dois : TidyFrame :=
  {| nomes := ["geo"; "trimestre"; "taxa_vaga"];
     registros :=
       [ {| geo := CStr "Spain"; trimestre := "2022-Q1";
            taxa_vaga := S754_finite false 1 0 |};
         {| geo := CStr "France"; trimestre := "2022-Q1";
            taxa_vaga := S754_finite false 3 0 |};
         {| geo := CStr "Spain"; trimestre := "2022-Q2";
            taxa_vaga := S754_finite false 1 1 |};
         {| geo := CStr "France"; trimestre := "2022-Q2";
            taxa_vaga := S754_finite false 1 2 |} ];
     categorias := ["2022-Q1"; "2022-Q2"] |}.

(** A table whose quarters stand in the sheet against the order of their
    texts, the rows of the later quarter first. *)
Definition tabela_contra_texto : TidyFrame :=
  {| nomes := ["geo"; "trimestre"; "taxa_vaga"];
     registros :=
       [ {| geo := CStr "Spain"; trimestre := "Q1-2021";
            taxa_vaga := S754_finite false 1 1 |};
         {| geo := CStr "France"; trimestre := "Q1-2021";
            taxa_vaga := S754_finite false 1 2 |};
         {| geo := CStr "Spain"; trimestre := "Q4-2020";
            taxa_vaga := S754_finite false 1 0 |} ];
     categorias := ["Q4-2020"; "Q1-2021"] |}.

(** The figure drawn from it for Spain: the quarters in the order of the
    sheet. *)
Definition figura_contra_texto : Figura :=
  {| title := "Taxa de vagas de trabalho - Sheet 19";
     ylabel := "Taxa de vagas (%)";
     xlabel := "Trimestre";
     series :=
       [ {| label := "Spain";
            xs := ["Q4-2020"; "Q1-2021"];
            ys := [S754_finite false 1 0; S754_finite false 1 1] |} ] |}.

(** A sheet of seven rows with a text in the cell of row 6 and column 2. *)
Definition folha_com_area : RawGrid :=
  [ [CStr "TIME"; CStr "2022-Q1"];
    [CStr "Spain"; num 1 0];
    []; []; []; [];
    [NaN; NaN; CStr "Industry, construction and services"] ].

(** A sheet laid as the sheet 19 script expects: the header in row 10, the
    data from row 12. *)
Definition folha_dezenove : RawGrid :=
  repeat [NaN; NaN; NaN] 10
  ++ [ [CStr "TIME"; CStr "2022-Q1"; NaN];
       [NaN; NaN; NaN];
       [CStr "Spain"; num 33 (-3); CStr "u"] ].

(** A sheet whose numbers are float64 values: 2.75 and 0.5. *)
Definition folha_binary64 : RawGrid :=
  [ [CStr "TIME"; CStr "2022-Q1"; CStr "2022-Q2"];
    [CStr "Spain"; CNum (S754_finite false 6192449487634432 (-51)); CStr ":"];
    [CStr "France"; CNum (S754_finite false 4503599627370496 (-53));
     CNum (S754_finite false 6192449487634432 (-51))] ].

Definition tabela_binary64 : TidyFrame :=
  {| nomes := ["geo"; "trimestre"; "taxa_vaga"];
     registros :=
       [ {| geo := CStr "Spain"; trimestre := "2022-Q1";
            taxa_vaga := S754_finite false 6192449487634432 (-51) |};
         {| geo := CStr "France"; trimestre := "2022-Q1";
            taxa_vaga := S754_finite false 4503599627370496 (-53) |};
         {| geo := CStr "France"; trimestre := "2022-Q2";
            taxa_vaga := S754_finite false 6192449487634432 (-51) |} ];
     categorias := ["2022-Q1"; "2022-Q2"] |}.

(** A sheet with the identifier column alone. *)
Definition folha_so_geo : RawGrid :=
  [ [CStr "TIME"]; [CStr "Spain"]; [CStr "France"] ].

(** * Properties *)

(** ** Lists and texts *)

Lemma enumerate_cons {A : Type} (x : A) (l : list A) :
  enumerate (x :: l) = (0, x) :: map (fun p => (S (fst p), snd p)) (enumerate l).
Proof.
  unfold enumerate. simpl. f_equal.
  rewrite <- seq_shift.
  generalize (seq 0 (List.length l)) as ns.
  induction l as [|y l IH]; intros [|n ns]; simpl; try reflexivity.
  now rewrite IH.
Qed.

Lemma enumerate_length {A : Type} (l : list A) :
  List.length (enumerate l) = List.length l.
Proof.
  unfold enumerate. rewrite length_combine, length_seq. apply Nat.min_id.
Qed.

Lemma ultimo_snoc (l : list string) (x : string) : ultimo (l ++ [x]) = x.
Proof. unfold ultimo. apply last_last. Qed.

Lemma enumerate_map {A B : Type} (f : A -> B) (l : list A) :
  enumerate (map f l) = map (fun ip => (fst ip, f (snd ip))) (enumerate l).
Proof.
  unfold enumerate. rewrite length_map.
  generalize (seq 0 (List.length l)) as ns.
  induction l as [|x l IH]; intros [|n ns]; simpl; try reflexivity.
  now rewrite IH.
Qed.

Lemma map_snd_enumerate {A : Type} (l : list A) : map snd (enumerate l) = l.
Proof.
  induction l as [|x l IH]; [reflexivity|].
  rewrite enumerate_cons. simpl. rewrite map_map. simpl.
  f_equal. etransitivity; [|exact IH]. now apply map_ext.
Qed.

Lemma enumerate_In {A : Type} (l : list A) (i : nat) (x : A) :
  In (i, x) (enumerate l) <-> nth_error l i = Some x.
Proof.
  revert i. induction l as [|y l IH]; intros i.
  - split; [intros []|]. now destruct i.
  - rewrite enumerate_cons. simpl. rewrite in_map_iff. split.
    + intros [E|[[k z] [E HIn]]].
      * now inversion E.
      * simpl in E. inversion E; subst. simpl. now apply IH.
    + destruct i as [|i]; simpl.
      * intros E. inversion E. now left.
      * intros E. right. exists (i, x). split; [reflexivity|]. now apply IH.
Qed.

Lemma flat_map_map {A B C : Type} (f : A -> B) (g : B -> list C) (l : list A) :
  flat_map g (map f l) = flat_map (fun x => g (f x)) l.
Proof.
  induction l as [|x l IH]; simpl; [reflexivity|]. now rewrite IH.
Qed.

Lemma map_flat_map {A B C : Type} (f : B -> C) (g : A -> list B) (l : list A) :
  map f (flat_map g l) = flat_map (fun x => map f (g x)) l.
Proof.
  induction l as [|x l IH]; simpl; [reflexivity|].
  now rewrite map_app, IH.
Qed.

Lemma filter_flat_map {A B : Type} (p : B -> bool) (g : A -> list B) (l : list A) :
  filter p (flat_map g l) = flat_map (fun x => filter p (g x)) l.
Proof.
  induction l as [|x l IH]; simpl; [reflexivity|].
  now rewrite filter_app, IH.
Qed.

Lemma flat_map_ext_in {A B : Type} (f g : A -> list B) (l : list A) :
  (forall x, In x l -> f x = g x) -> flat_map f l = flat_map g l.
Proof.
  induction l as [|x l IH]; intros Hfg; simpl; [reflexivity|].
  rewrite Hfg by now left.
  rewrite IH; [reflexivity|]. intros y Hy. apply Hfg. now right.
Qed.

Lemma unique_NoDup (l : list string) : unique l = true <-> NoDup l.
Proof.
  induction l as [|x l IH]; simpl.
  - split; [constructor|reflexivity].
  - rewrite andb_true_iff, negb_true_iff, IH. split.
    + intros [Hx Hl]. constructor; [|assumption].
      intros HIn.
      assert (existsb (String.eqb x) l = true) as E
          by (apply existsb_exists; exists x; split; [assumption|apply String.eqb_refl]).
      congruence.
    + intros Hnd. inversion Hnd as [|? ? Hx Hl]; subst. split; [|assumption].
      destruct (existsb (String.eqb x) l) eqn:E; [|reflexivity].
      apply existsb_exists in E. destruct E as [y [Hy E]].
      apply String.eqb_eq in E. subst. contradiction.
Qed.

(** ** Labels and positions *)

Lemma filter_deslocado {A : Type} (q : A -> bool) (e : list (nat * A)) :
  map fst (filter (fun jc => q (snd jc)) (map (fun p => (S (fst p), snd p)) e))
  = map S (map fst (filter (fun jc => q (snd jc)) e)).
Proof.
  induction e as [|[j y] r IH]; simpl; [reflexivity|].
  destruct (q y); simpl; now rewrite IH.
Qed.

Lemma posicoes_cons (x : string) (l : list string) (k : string) :
  posicoes (x :: l) k
  = (if x =? k then [0] else []) ++ map S (posicoes l k).
Proof.
  unfold posicoes. rewrite enumerate_cons. simpl.
  pose proof (filter_deslocado (fun y => y =? k) (enumerate l)) as E.
  cbv beta in E.
  destruct (x =? k); simpl; now rewrite E.
Qed.

Lemma posicoes_absent (l : list string) (k : string) :
  ~ In k l -> posicoes l k = [].
Proof.
  induction l as [|x l IH]; intros Hk; [reflexivity|].
  rewrite posicoes_cons.
  destruct (String.eqb_spec x k) as [E|E].
  - exfalso. apply Hk. now left.
  - rewrite IH; [reflexivity|]. intros HIn. apply Hk. now right.
Qed.

Lemma posicoes_present (l : list string) (k : string) :
  In k l -> posicoes l k <> [].
Proof.
  induction l as [|x l IH]; intros Hk; [contradiction|].
  rewrite posicoes_cons.
  destruct (String.eqb_spec x k) as [E|E]; [discriminate|].
  destruct Hk as [Hk|Hk]; [contradiction|].
  simpl. intros E'. apply (IH Hk).
  destruct (posicoes l k); [reflexivity|discriminate].
Qed.

(** A key taken among the columns that pass a test brings, when these
    columns bear distinct labels, exactly the columns that pass it. *)
Lemma selecionar_filtradas (p : string -> bool) (l : list string) :
  NoDup (filter p l) ->
  flat_map (posicoes l) (filter p l)
  = map fst (filter (fun jc => p (snd jc)) (enumerate l)).
Proof.
  induction l as [|x l IH]; intros Hnd; [reflexivity|].
  rewrite enumerate_cons.
  assert (forall k, In k (filter p l) -> k <> x ->
                    posicoes (x :: l) k = map S (posicoes l k)) as Hshift.
  { intros k _ Hk. rewrite posicoes_cons.
    destruct (String.eqb_spec x k); [congruence|reflexivity]. }
  pose proof (filter_deslocado p (enumerate l)) as E.
  cbn [filter snd] in Hnd |- *. destruct (p x) eqn:Hpx.
  - cbn [flat_map map fst]. inversion Hnd as [|? ? Hx Hl]; subst.
    rewrite posicoes_cons, String.eqb_refl.
    rewrite (posicoes_absent l x).
    2:{ intros HIn. apply Hx. apply filter_In. now split. }
    cbn [map app]. f_equal.
    rewrite E, <- (IH Hl).
    rewrite (flat_map_ext_in _ (fun k => map S (posicoes l k))).
    + now rewrite <- map_flat_map.
    + intros k Hk. apply Hshift; [assumption|]. intros ->. contradiction.
  - rewrite E, <- (IH Hnd).
    rewrite (flat_map_ext_in _ (fun k => map S (posicoes l k))).
    + now rewrite <- map_flat_map.
    + intros k Hk. apply Hshift; [assumption|]. intros ->.
      apply filter_In in Hk. destruct Hk as [_ Hk]. congruence.
Qed.

(** ** The flag suffix *)

Lemma length_append (p s : string) :
  String.length (p ++ s) = String.length p + String.length s.
Proof.
  induction p as [|c p IH]; simpl; [reflexivity|]. now rewrite IH.
Qed.

Lemma substring_all (s : string) : substring 0 (String.length s) s = s.
Proof.
  induction s as [|c s IH]; simpl; [reflexivity|]. now rewrite IH.
Qed.

Lemma substring_append (p s : string) (m : nat) :
  substring (String.length p) m (p ++ s) = substring 0 m s.
Proof.
  induction p as [|c p IH]; simpl; [reflexivity|]. exact IH.
Qed.

Lemma substring_split (s : string) :
  forall n, n <= String.length s ->
    s = (substring 0 n s ++ substring n (String.length s - n) s)%string.
Proof.
  induction s as [|c s IH]; intros n Hn.
  - simpl in Hn. assert (n = 0) by lia. subst. reflexivity.
  - destruct n as [|n].
    + simpl. now rewrite substring_all.
    + simpl in Hn. cbn [substring String.length Nat.sub String.append].
      f_equal. apply IH. lia.
Qed.

Lemma endswith_append (p sufixo : string) : endswith (p ++ sufixo) sufixo = true.
Proof.
  unfold endswith. rewrite length_append.
  apply andb_true_iff. split.
  - apply Nat.leb_le. lia.
  - replace (String.length p + String.length sufixo - String.length sufixo)
      with (String.length p) by lia.
    rewrite substring_append, substring_all. apply String.eqb_refl.
Qed.

Lemma endswith_iff (s sufixo : string) :
  endswith s sufixo = true <-> exists p, s = (p ++ sufixo)%string.
Proof.
  split.
  - unfold endswith. intros E. apply andb_true_iff in E.
    destruct E as [Hle E]. apply Nat.leb_le in Hle. apply String.eqb_eq in E.
    exists (substring 0 (String.length s - String.length sufixo) s).
    pose proof (substring_split s (String.length s - String.length sufixo)
                  ltac:(lia)) as Hs.
    replace (String.length s - (String.length s - String.length sufixo))
      with (String.length sufixo) in Hs by lia.
    now rewrite E in Hs.
  - intros [p ->]. apply endswith_append.
Qed.

(** ** The header rule *)

Section Header.

Context `{FloatText}.

Lemma passo_coluna_seguintes (celulas : list Cell) :
  forall (k : nat) (colunas : list string) (anterior : string),
    fold_left passo_coluna (combine (seq (S k) (List.length celulas)) celulas)
              (colunas ++ [anterior])
    = (colunas ++ [anterior]) ++ rotulos_seguintes anterior celulas.
Proof.
  induction celulas as [|c r IH]; intros k colunas anterior.
  - simpl. now rewrite app_nil_r.
  - cbn [List.length seq combine fold_left rotulos_seguintes].
    unfold passo_coluna at 2. cbn [Nat.eqb].
    rewrite ultimo_snoc.
    destruct (isna c); rewrite IH, <- app_assoc; reflexivity.
Qed.

Lemma montar_nomes_colunas_nil : montar_nomes_colunas [] = [].
Proof. reflexivity. Qed.

Lemma montar_nomes_colunas_cons (c : Cell) (r : list Cell) :
  montar_nomes_colunas (c :: r) = "geo" :: rotulos_seguintes "geo" r.
Proof.
  unfold montar_nomes_colunas, enumerate.
  cbn [List.length seq combine fold_left passo_coluna Nat.eqb].
  change ([] ++ ["geo"]) with (@nil string ++ ["geo"]).
  now rewrite passo_coluna_seguintes.
Qed.

Lemma build_columns_eq (header_row : list Cell) :
  _build_columns header_row = montar_nomes_colunas header_row.
Proof. reflexivity. Qed.

Lemma rotulos_seguintes_length (celulas : list Cell) :
  forall anterior,
    List.length (rotulos_seguintes anterior celulas) = List.length celulas.
Proof.
  induction celulas as [|c r IH]; intros anterior; simpl; [reflexivity|].
  now rewrite IH.
Qed.

Lemma montar_nomes_colunas_length (cab : list Cell) :
  List.length (montar_nomes_colunas cab) = List.length cab.
Proof.
  destruct cab as [|c r]; [reflexivity|].
  rewrite montar_nomes_colunas_cons. simpl.
  now rewrite rotulos_seguintes_length.
Qed.

Lemma rotulos_seguintes_nth (celulas : list Cell) :
  forall (anterior : string) (i : nat),
    i < List.length celulas ->
    nth i (rotulos_seguintes anterior celulas) ""
    = if isna (nth i celulas NaN)
      then (nth i (anterior :: rotulos_seguintes anterior celulas) "" ++ "_flag")%string
      else str (nth i celulas NaN).
Proof.
  induction celulas as [|c r IH]; intros anterior i Hi; simpl in Hi; [lia|].
  destruct i as [|i].
  - reflexivity.
  - cbn [rotulos_seguintes nth]. rewrite IH by lia. reflexivity.
Qed.

Lemma montar_nomes_colunas_nth (cab : list Cell) (i : nat) :
  i < List.length cab ->
  nth_error (montar_nomes_colunas cab) i
  = Some (if Nat.eqb i 0 then "geo"
          else if isna (nth i cab NaN)
               then (nth (i - 1) (montar_nomes_colunas cab) "" ++ "_flag")%string
               else str (nth i cab NaN)).
Proof.
  intros Hi.
  destruct cab as [|c r]; [simpl in Hi; lia|].
  rewrite montar_nomes_colunas_cons.
  destruct i as [|i]; [reflexivity|].
  simpl in Hi.
  cbn [Nat.eqb nth_error nth].
  replace (S i - 1) with i by lia.
  rewrite (nth_error_nth' _ "") by (rewrite rotulos_seguintes_length; lia).
  now rewrite rotulos_seguintes_nth by lia.
Qed.

End Header.

(** C1: the labels derived from a header row have one label per column;
    column 0 is labelled "geo" whatever its cell holds; a later column with
    an empty header cell is labelled with the derived label of the column
    just before it followed by "_flag" (so a run of empty cells piles the
    suffix up); a later column with a non-empty header cell is labelled with
    the text of that cell. *)
Theorem C1_header_labels_left_to_right `{FloatText} (cab : list Cell) (i : nat) :
  i < List.length cab ->
  List.length (montar_nomes_colunas cab) = List.length cab /\
  nth_error (montar_nomes_colunas cab) i
  = Some (if Nat.eqb i 0 then "geo"
          else if isna (nth i cab NaN)
               then (nth (i - 1) (montar_nomes_colunas cab) "" ++ "_flag")%string
               else str (nth i cab NaN)).
Proof.
  intros Hi. split.
  - apply montar_nomes_colunas_length.
  - now apply montar_nomes_colunas_nth.
Qed.

Lemma C1_header_labels_witness :
  3 < List.length [CStr "TIME"; CStr "2022-Q1"; NaN; NaN; CStr "2022-Q2"] /\
  nth_error (@montar_nomes_colunas FloatText_amostra
               [CStr "TIME"; CStr "2022-Q1"; NaN; NaN; CStr "2022-Q2"]) 3
  = Some "2022-Q1_flag_flag".
Proof.
  split; [simpl; lia|].
  exact (proj2 (@C1_header_labels_left_to_right FloatText_amostra
                  [CStr "TIME"; CStr "2022-Q1"; NaN; NaN; CStr "2022-Q2"] 3
                  ltac:(simpl; lia))).
Defined.

(** ** The loader *)

Lemma coluna_de_valor_geo : coluna_de_valor "geo" = false.
Proof. reflexivity. Qed.

Lemma coluna_de_valor_not_geo (col : string) :
  coluna_de_valor col = true -> (col =? "geo") = false.
Proof.
  unfold coluna_de_valor. intros E. apply andb_true_iff in E.
  destruct E as [E _]. now apply negb_true_iff in E.
Qed.

Lemma posicoes_de_valor_In (colunas : list string) (j : nat) (col : string) :
  In (j, col) (posicoes_de_valor colunas)
  <-> nth_error colunas j = Some col /\ coluna_de_valor col = true.
Proof.
  unfold posicoes_de_valor. rewrite filter_In, enumerate_In. reflexivity.
Qed.

Lemma posicoes_de_valor_labels (colunas : list string) :
  map snd (posicoes_de_valor colunas) = colunas_de_valor colunas.
Proof.
  unfold posicoes_de_valor, colunas_de_valor.
  rewrite <- (map_snd_enumerate colunas) at 2.
  induction (enumerate colunas) as [|[j y] r IH]; simpl; [reflexivity|].
  destruct (coluna_de_valor y); simpl; now rewrite IH.
Qed.

Lemma posicoes_de_valor_nth (colunas : list string) :
  map (fun j => nth j colunas "") (map fst (posicoes_de_valor colunas))
  = map snd (posicoes_de_valor colunas).
Proof.
  rewrite map_map. apply map_ext_in. intros [j col] HIn.
  apply posicoes_de_valor_In in HIn. destruct HIn as [Hj _].
  simpl. now apply nth_error_nth.
Qed.

Lemma flat_map_enumerate {A B : Type} (g : A -> list B) (l : list A) :
  flat_map (fun ip => g (snd ip)) (enumerate l) = flat_map g l.
Proof.
  rewrite <- (flat_map_map snd g). now rewrite map_snd_enumerate.
Qed.

(** The long table that [melt] gives on the selected columns of a frame
    whose identifier label heads the columns, the value labels being
    distinct: one block per value column, in the order of the sheet. *)
Lemma melt_selecionar (rot : list string) (dados : list (list Cell))
    (var_name value_name : string) :
  ~ In "geo" rot ->
  NoDup (colunas_de_valor ("geo" :: rot)) ->
  melt "geo" var_name value_name
    (replace (selecionar ("geo" :: colunas_de_valor ("geo" :: rot))
                {| columns := "geo" :: rot; linhas := dados |}))
  = if existsb (String.eqb value_name)
               ("geo" :: colunas_de_valor ("geo" :: rot))
    then Raise ValueError
    else
      Ok (flat_map
            (fun jc : nat * string =>
               map (fun linha => (substituir (celula linha 0), snd jc,
                                  substituir (celula linha (fst jc)))) dados)
            (posicoes_de_valor ("geo" :: rot))).
Proof.
  intros Hgeo Hnd.
  set (colunas := "geo" :: rot) in *.
  set (pv := posicoes_de_valor colunas).
  assert (flat_map (posicoes colunas) ("geo" :: colunas_de_valor colunas)
          = 0 :: map fst pv) as Hpos.
  { cbn [flat_map]. unfold colunas_de_valor.
    rewrite (selecionar_filtradas coluna_de_valor colunas Hnd).
    unfold colunas at 1. rewrite posicoes_cons, String.eqb_refl.
    now rewrite (posicoes_absent rot "geo" Hgeo). }
  unfold selecionar, replace, melt.
  cbn [columns linhas]. rewrite Hpos.
  cbn [map]. change (nth 0 colunas "") with "geo".
  pose proof (posicoes_de_valor_nth colunas) as Hnth. fold pv in Hnth.
  rewrite Hnth.
  unfold pv at 1. rewrite posicoes_de_valor_labels. fold colunas.
  destruct (existsb (String.eqb value_name) ("geo" :: colunas_de_valor colunas));
    [reflexivity|].
  f_equal.
  rewrite posicoes_cons, String.eqb_refl. cbn [app hd].
  rewrite enumerate_cons. cbn [flat_map snd].
  rewrite String.eqb_refl. cbn [app].
  rewrite flat_map_map. cbn [fst snd].
  rewrite enumerate_map, flat_map_map. cbn [fst snd].
  rewrite <- (flat_map_enumerate _ pv).
  apply flat_map_ext_in. intros [i [j col]] HIn. cbn [fst snd].
  apply enumerate_In in HIn.
  assert (In (j, col) pv) as Hjc by (eapply nth_error_In; eassumption).
  apply posicoes_de_valor_In in Hjc. destruct Hjc as [_ Hval].
  rewrite (coluna_de_valor_not_geo col Hval).
  rewrite !map_map. apply map_ext. intros linha.
  unfold celula at 1 3. cbn [map nth]. f_equal.
  rewrite map_map.
  apply nth_error_nth.
  cbn [nth_error]. rewrite map_map, nth_error_map, HIn. reflexivity.
Qed.

Lemma existsb_eqb_In (k : string) (l : list string) :
  existsb (String.eqb k) l = true <-> In k l.
Proof.
  rewrite existsb_exists. split.
  - intros [x [Hx E]]. apply String.eqb_eq in E. now subst.
  - intros Hk. exists k. split; [assumption|apply String.eqb_refl].
Qed.

Section Loading.

Context `{FloatText}.

(** What [carregar_tabela_vagas] returns once the header row is found: it
    raises on a header without columns, on a header that repeats the
    identifier label, on repeated value labels and on a value column
    labelled as the column of values of the long table; otherwise the table
    holds one block of rows per value column. *)
Lemma carregar_tabela_vagas_forma (bruto : RawGrid) (h d : Z) (cab : list Cell) :
  iloc bruto h = Ok cab ->
  carregar_tabela_vagas bruto h d
  = match montar_nomes_colunas cab with
    | [] => Raise KeyError
    | _ :: rot =>
      if existsb (String.eqb "geo") rot then Raise ValueError
      else if unique (colunas_de_valor (montar_nomes_colunas cab)) then
        if existsb (String.eqb "taxa_vaga")
                   (colunas_de_valor (montar_nomes_colunas cab))
        then Raise ValueError
        else
          Ok ({| nomes := ["geo"; "trimestre"; "taxa_vaga"];
                 registros :=
                   flat_map (bloco (iloc_from bruto d))
                            (posicoes_de_valor (montar_nomes_colunas cab));
                 categorias := colunas_de_valor (montar_nomes_colunas cab) |},
              colunas_de_valor (montar_nomes_colunas cab),
              ler_area_trabalho bruto)
      else Raise ValueError
    end.
Proof.
  intros Hcab. unfold carregar_tabela_vagas. rewrite Hcab. cbn [bind].
  destruct cab as [|c r]; [reflexivity|].
  rewrite montar_nomes_colunas_cons.
  set (rot := rotulos_seguintes "geo" r).
  unfold filtrar_notna. cbn [columns linhas].
  rewrite posicoes_cons, String.eqb_refl. cbn [app].
  destruct (existsb (String.eqb "geo") rot) eqn:Hgeo.
  - apply existsb_eqb_In in Hgeo. apply posicoes_present in Hgeo.
    destruct (posicoes rot "geo"); [contradiction|reflexivity].
  - assert (~ In "geo" rot) as Hnot.
    { intros HIn. apply existsb_eqb_In in HIn. congruence. }
    rewrite (posicoes_absent rot "geo" Hnot). cbn [map bind].
    unfold Categorical.
    destruct (unique (colunas_de_valor ("geo" :: rot))) eqn:Huni.
    + apply unique_NoDup in Huni.
      rewrite (melt_selecionar rot _ "trimestre" "taxa_vaga" Hnot Huni).
      cbn [existsb]. change ("taxa_vaga" =? "geo") with false. cbn [orb].
      destruct (existsb (String.eqb "taxa_vaga")
                        (colunas_de_valor ("geo" :: rot))); [reflexivity|].
      cbn [bind].
      rewrite map_flat_map, filter_flat_map.
      do 4 f_equal.
      apply flat_map_ext_in. intros jc _.
      unfold bloco, linhas_com_geo. now rewrite map_map.
    + unfold melt.
      destruct (existsb (String.eqb "taxa_vaga") _); reflexivity.
Qed.

End Loading.

Section LoaderFacts.

Context `{FloatText}.

Lemma carregar_tabela_vagas_ok (bruto : RawGrid) (h d : Z)
    (t : TidyFrame) (ordem : list string) (area : option string) :
  carregar_tabela_vagas bruto h d = Ok (t, ordem, area) ->
  exists cab,
    iloc bruto h = Ok cab /\
    cab <> [] /\
    ~ In "geo" (tl (montar_nomes_colunas cab)) /\
    NoDup (colunas_de_valor (montar_nomes_colunas cab)) /\
    ordem = colunas_de_valor (montar_nomes_colunas cab) /\
    categorias t = ordem /\
    registros t
    = flat_map (bloco (iloc_from bruto d))
               (posicoes_de_valor (montar_nomes_colunas cab)).
Proof.
  intros Hok.
  destruct (iloc bruto h) as [cab|e] eqn:Hcab.
  2:{ unfold carregar_tabela_vagas in Hok. rewrite Hcab in Hok. discriminate. }
  rewrite (carregar_tabela_vagas_forma bruto h d cab Hcab) in Hok.
  exists cab. split; [reflexivity|].
  destruct cab as [|c r]; [discriminate|].
  rewrite montar_nomes_colunas_cons in *. cbn [tl].
  destruct (existsb (String.eqb "geo") (rotulos_seguintes "geo" r)) eqn:Hgeo;
    [discriminate|].
  destruct (unique (colunas_de_valor ("geo" :: rotulos_seguintes "geo" r)))
    eqn:Huni; [|discriminate].
  destruct (existsb (String.eqb "taxa_vaga") _); [discriminate|].
  inversion Hok; subst; clear Hok. cbn [categorias registros].
  repeat split.
  - discriminate.
  - intros HIn. apply existsb_eqb_In in HIn. congruence.
  - now apply unique_NoDup.
Qed.

Lemma bloco_In (dados : list (list Cell)) (jc : nat * string) (r : TidyRecord) :
  In r (bloco dados jc) ->
  trimestre r = snd jc /\ is_nan (taxa_vaga r) = false.
Proof.
  unfold bloco. rewrite filter_In, in_map_iff.
  intros [[linha [E _]] Hnn]. subst r. split; [reflexivity|].
  now apply negb_true_iff in Hnn.
Qed.

Lemma registros_trimestre (bruto : RawGrid) (h d : Z)
    (t : TidyFrame) (ordem : list string) (area : option string) (r : TidyRecord) :
  carregar_tabela_vagas bruto h d = Ok (t, ordem, area) ->
  In r (registros t) -> In (trimestre r) ordem.
Proof.
  intros Hok Hr.
  destruct (carregar_tabela_vagas_ok _ _ _ _ _ _ Hok)
    as [cab [_ [_ [_ [_ [-> [_ Hregs]]]]]]].
  rewrite Hregs in Hr. apply in_flat_map in Hr.
  destruct Hr as [jc [Hjc Hr]]. apply bloco_In in Hr. destruct Hr as [-> _].
  rewrite <- posicoes_de_valor_labels. now apply in_map.
Qed.

End LoaderFacts.

(** C3: the period order that the loader returns is the list of the derived
    header labels that are not "geo" and do not end in "_flag", in the order
    of the columns; the categories of the quarter column are that list. *)
Theorem C3_period_order_is_value_labels `{FloatText} (bruto : RawGrid) (h d : Z)
    (t : TidyFrame) (ordem : list string) (area : option string) :
  carregar_tabela_vagas bruto h d = Ok (t, ordem, area) ->
  exists cab,
    iloc bruto h = Ok cab /\
    ordem = filter (fun col => negb (col =? "geo") && negb (endswith col "_flag"))
                   (montar_nomes_colunas cab) /\
    List.length ordem
    = List.length
        (filter (fun col => negb (col =? "geo") && negb (endswith col "_flag"))
                (montar_nomes_colunas cab)) /\
    categorias t = ordem /\
    (forall col, In col ordem <->
       In col (montar_nomes_colunas cab) /\ col <> "geo" /\
       ~ exists p, col = (p ++ "_flag")%string).
Proof.
  intros Hok.
  destruct (carregar_tabela_vagas_ok _ _ _ _ _ _ Hok)
    as [cab [Hcab [_ [_ [_ [Hordem [Hcat _]]]]]]].
  exists cab. split; [assumption|]. split; [exact Hordem|].
  split; [now rewrite Hordem|]. split; [assumption|].
  intros col. rewrite Hordem. unfold colunas_de_valor, coluna_de_valor.
  rewrite filter_In, andb_true_iff, !negb_true_iff.
  rewrite String.eqb_neq, <- endswith_iff.
  destruct (endswith col "_flag"); intuition congruence.
Qed.

Lemma C3_period_order_witness :
  @carregar_tabela_vagas FloatText_amostra folha_amostra 0 1
  = Ok (tabela_amostra, ["2022-Q1"; "2022-Q2"], None) /\
  exists cab,
    iloc folha_amostra 0 = Ok cab /\
    ["2022-Q1"; "2022-Q2"]
    = filter (fun col => negb (col =? "geo") && negb (endswith col "_flag"))
             (@montar_nomes_colunas FloatText_amostra cab) /\
    List.length ["2022-Q1"; "2022-Q2"]
    = List.length
        (filter (fun col => negb (col =? "geo") && negb (endswith col "_flag"))
                (@montar_nomes_colunas FloatText_amostra cab)) /\
    categorias tabela_amostra = ["2022-Q1"; "2022-Q2"] /\
    (forall col, In col ["2022-Q1"; "2022-Q2"] <->
       In col (@montar_nomes_colunas FloatText_amostra cab) /\ col <> "geo" /\
       ~ exists p, col = (p ++ "_flag")%string).
Proof.
  split; [reflexivity|].
  apply (@C3_period_order_is_value_labels FloatText_amostra
           folha_amostra 0 1 tabela_amostra ["2022-Q1"; "2022-Q2"] None).
  reflexivity.
Defined.

(** C10: a column after the first whose header cell is not empty and whose
    text ends in "_flag" is labelled with that text, is left out of the
    period order, and no row of the tidy table bears its label: the suffix of
    the label alone decides, whether the label was derived or read. *)
Theorem C10_flag_suffix_excludes_named_column `{FloatText}
    (bruto : RawGrid) (h d : Z) (t : TidyFrame) (ordem : list string)
    (area : option string) (cab : list Cell) (j : nat) (c : Cell) :
  carregar_tabela_vagas bruto h d = Ok (t, ordem, area) ->
  iloc bruto h = Ok cab ->
  1 <= j ->
  nth_error cab j = Some c ->
  isna c = false ->
  endswith (str c) "_flag" = true ->
  nth_error (montar_nomes_colunas cab) j = Some (str c) /\
  ~ In (str c) ordem /\
  (forall r, In r (registros t) -> trimestre r <> str c).
Proof.
  intros Hok Hcab Hj Hc Hna Hend.
  assert (j < List.length cab) as Hlt by (apply nth_error_Some; congruence).
  assert (~ In (str c) ordem) as Hout.
  { destruct (carregar_tabela_vagas_ok _ _ _ _ _ _ Hok)
      as [cab' [Hcab' [_ [_ [_ [-> _]]]]]].
    unfold colunas_de_valor, coluna_de_valor. rewrite filter_In, Hend.
    intros [_ E]. now rewrite andb_false_r in E. }
  split; [|split; [exact Hout|]].
  - rewrite (montar_nomes_colunas_nth cab j Hlt).
    destruct j as [|j]; [lia|]. cbn [Nat.eqb].
    rewrite (nth_error_nth _ _ NaN Hc), Hna. reflexivity.
  - intros r Hr E. apply Hout. rewrite <- E.
    eapply registros_trimestre; eassumption.
Qed.

Lemma C10_flag_suffix_witness :
  (@carregar_tabela_vagas FloatText_amostra folha_com_sufixo 0 1
   = Ok (tabela_com_sufixo, ["2022-Q1"], None) /\
   iloc folha_com_sufixo 0 = Ok [CStr "TIME"; CStr "2022-Q1"; CStr "red_flag"] /\
   1 <= 2 /\
   nth_error [CStr "TIME"; CStr "2022-Q1"; CStr "red_flag"] 2
   = Some (CStr "red_flag") /\
   isna (CStr "red_flag") = false /\
   endswith "red_flag" "_flag" = true) /\
  (nth_error (@montar_nomes_colunas FloatText_amostra
                [CStr "TIME"; CStr "2022-Q1"; CStr "red_flag"]) 2
   = Some "red_flag" /\
   ~ In "red_flag" ["2022-Q1"] /\
   (forall r, In r (registros tabela_com_sufixo) -> trimestre r <> "red_flag")).
Proof.
  split.
  - repeat split; solve [reflexivity | lia].
  - apply (@C10_flag_suffix_excludes_named_column FloatText_amostra
             folha_com_sufixo 0 1 tabela_com_sufixo ["2022-Q1"] None
             [CStr "TIME"; CStr "2022-Q1"; CStr "red_flag"] 2 (CStr "red_flag"));
      solve [reflexivity | lia].
Defined.

Lemma filter_map_flat_map {A B : Type} (p : B -> bool) (f : A -> B) (l : list A) :
  filter p (map f l) = flat_map (fun x => if p (f x) then [f x] else []) l.
Proof.
  induction l as [|x l IH]; simpl; [reflexivity|].
  destruct (p (f x)); simpl; now rewrite IH.
Qed.

Lemma valor_lido_sentinela `{FloatText} (c : Cell) :
  c = CStr ":" \/ is_nan (to_numeric c) = true -> is_nan (valor_lido c) = true.
Proof.
  unfold valor_lido. intros [->|E]; [reflexivity|].
  destruct c as [f|s|]; try exact E.
  simpl. destruct (s =? ":"); [reflexivity|exact E].
Qed.

(** C2 as the code has it: every row of the tidy table holds a number that
    is not NaN (it may be an infinity, which [dropna] keeps); each cell of a
    value column, in a row with an identifier, gives one row of the table
    when it reads as such a number and none otherwise; a cell that holds the
    sentinel ":" or that [to_numeric] cannot read gives none. *)
Theorem C2_values_never_null `{FloatText} (bruto : RawGrid) (h d : Z)
    (t : TidyFrame) (ordem : list string) (area : option string) :
  carregar_tabela_vagas bruto h d = Ok (t, ordem, area) ->
  (forall r, In r (registros t) -> is_nan (taxa_vaga r) = false) /\
  (exists cab,
      iloc bruto h = Ok cab /\
      registros t
      = flat_map
          (fun jc =>
             flat_map
               (fun linha =>
                  if is_nan (valor_lido (celula linha (fst jc))) then []
                  else [registro_de jc linha])
               (linhas_com_geo (iloc_from bruto d)))
          (posicoes_de_valor (montar_nomes_colunas cab))) /\
  (forall c, c = CStr ":" \/ is_nan (to_numeric c) = true ->
             is_nan (valor_lido c) = true).
Proof.
  intros Hok.
  destruct (carregar_tabela_vagas_ok _ _ _ _ _ _ Hok)
    as [cab [Hcab [_ [_ [_ [_ [_ Hregs]]]]]]].
  split; [|split].
  - intros r Hr. rewrite Hregs in Hr. apply in_flat_map in Hr.
    destruct Hr as [jc [_ Hr]]. now apply bloco_In in Hr.
  - exists cab. split; [assumption|]. rewrite Hregs.
    apply flat_map_ext_in. intros jc _. unfold bloco.
    rewrite filter_map_flat_map. apply flat_map_ext_in. intros linha _.
    cbn [registro_de taxa_vaga].
    now destruct (is_nan (valor_lido (celula linha (fst jc)))).
  - apply valor_lido_sentinela.
Qed.

Lemma C2_values_never_null_witness :
  @carregar_tabela_vagas FloatText_amostra folha_amostra 0 1
  = Ok (tabela_amostra, ["2022-Q1"; "2022-Q2"], None) /\
  (forall r, In r (registros tabela_amostra) -> is_nan (taxa_vaga r) = false).
Proof.
  split; [reflexivity|].
  apply (@C2_values_never_null FloatText_amostra folha_amostra 0 1
           tabela_amostra ["2022-Q1"; "2022-Q2"] None).
  reflexivity.
Defined.

(** C2 as stated fails on finiteness: an infinite cell passes [to_numeric]
    and [dropna] and reaches the tidy table. *)
Lemma C2_infinite_value_is_kept :
  exists t ordem area r,
    @carregar_tabela_vagas FloatText_amostra folha_infinita 0 1
    = Ok (t, ordem, area) /\
    In r (registros t) /\
    is_finite (taxa_vaga r) = false.
Proof.
  eexists. eexists. eexists. eexists.
  split; [reflexivity|]. split; [left; reflexivity|reflexivity].
Qed.

(** ** Rows without identifier *)

Lemma iloc_app_l {A : Type} (topo resto resto' : list A) (h : Z) :
  (0 <= h < Z.of_nat (List.length topo))%Z ->
  iloc (topo ++ resto) h = iloc (topo ++ resto') h.
Proof.
  intros Hh. unfold iloc. rewrite !length_app, !Nat2Z.inj_add.
  destruct (Z.ltb_spec h 0) as [Hneg|_]; [lia|].
  assert (Z.to_nat h < List.length topo)%nat as Hlt by lia.
  rewrite !(nth_error_app1 _ _ Hlt).
  replace ((0 <=? h)%Z && (h <? Z.of_nat (List.length topo)
                                 + Z.of_nat (List.length resto))%Z)
    with true by (symmetry; apply andb_true_iff; split;
                  [apply Z.leb_le|apply Z.ltb_lt]; lia).
  replace ((0 <=? h)%Z && (h <? Z.of_nat (List.length topo)
                                 + Z.of_nat (List.length resto'))%Z)
    with true by (symmetry; apply andb_true_iff; split;
                  [apply Z.leb_le|apply Z.ltb_lt]; lia).
  reflexivity.
Qed.

Lemma iloc_from_app {A : Type} (topo resto : list A) :
  iloc_from (topo ++ resto) (Z.of_nat (List.length topo)) = resto.
Proof.
  unfold iloc_from.
  destruct (Z.ltb_spec (Z.of_nat (List.length topo)) 0) as [Hneg|_]; [lia|].
  rewrite Nat2Z.id, skipn_app, skipn_all, Nat.sub_diag. reflexivity.
Qed.

Lemma linhas_com_geo_sem (antes depois : list (list Cell)) (linha : list Cell) :
  isna (celula linha 0) = true ->
  linhas_com_geo (antes ++ linha :: depois) = linhas_com_geo (antes ++ depois).
Proof.
  intros Hna. unfold linhas_com_geo. rewrite !filter_app. cbn [filter].
  unfold notna. now rewrite Hna.
Qed.

(** C4: a data row whose identifier cell is empty leaves no trace in what
    the loader returns: with the row or without it, the tidy table and the
    period order are the same. *)
Theorem C4_rows_without_identifier_dropped `{FloatText}
    (topo antes depois : list (list Cell)) (linha : list Cell) (h : Z) :
  (0 <= h < Z.of_nat (List.length topo))%Z ->
  isna (celula linha 0) = true ->
  tabela_de (carregar_tabela_vagas (topo ++ antes ++ linha :: depois) h
               (Z.of_nat (List.length topo)))
  = tabela_de (carregar_tabela_vagas (topo ++ antes ++ depois) h
                 (Z.of_nat (List.length topo))).
Proof.
  intros Hh Hna.
  pose proof (iloc_app_l topo (antes ++ linha :: depois) (antes ++ depois) h Hh)
    as Hcab.
  destruct (iloc (topo ++ antes ++ depois) h) as [cab|e] eqn:Hcab'.
  - rewrite (carregar_tabela_vagas_forma _ h _ cab Hcab).
    rewrite (carregar_tabela_vagas_forma _ h _ cab Hcab').
    rewrite !iloc_from_app.
    destruct (montar_nomes_colunas cab) as [|g rot]; [reflexivity|].
    destruct (existsb (String.eqb "geo") rot); [reflexivity|].
    destruct (unique (colunas_de_valor (g :: rot))); [|reflexivity].
    destruct (existsb (String.eqb "taxa_vaga") _); [reflexivity|].
    cbn [tabela_de]. do 3 f_equal.
    apply flat_map_ext_in. intros jc _. unfold bloco.
    now rewrite (linhas_com_geo_sem antes depois linha Hna).
  - unfold carregar_tabela_vagas. rewrite Hcab, Hcab'. reflexivity.
Qed.

Lemma C4_rows_without_identifier_witness :
  ((0 <= 0 < Z.of_nat (List.length [[CStr "TIME"; CStr "2022-Q1"]]))%Z /\
   isna (celula [NaN; num 7 0] 0) = true) /\
  tabela_de (@carregar_tabela_vagas FloatText_amostra
               ([[CStr "TIME"; CStr "2022-Q1"]]
                  ++ [[CStr "Spain"; num 33 (-3)]]
                  ++ [NaN; num 7 0] :: [[CStr "France"; num 5 (-1)]])
               0 (Z.of_nat (List.length [[CStr "TIME"; CStr "2022-Q1"]])))
  = tabela_de (@carregar_tabela_vagas FloatText_amostra
                 ([[CStr "TIME"; CStr "2022-Q1"]]
                    ++ [[CStr "Spain"; num 33 (-3)]]
                    ++ [[CStr "France"; num 5 (-1)]])
                 0 (Z.of_nat (List.length [[CStr "TIME"; CStr "2022-Q1"]]))).
Proof.
  split.
  - split; [simpl; lia|reflexivity].
  - apply (@C4_rows_without_identifier_dropped FloatText_amostra
             [[CStr "TIME"; CStr "2022-Q1"]]
             [[CStr "Spain"; num 33 (-3)]]
             [[CStr "France"; num 5 (-1)]]
             [NaN; num 7 0] 0).
    + simpl; lia.
    + reflexivity.
Defined.

(** ** Errors of the loader *)

Lemma iloc_in_range {A : Type} (l : list A) (i : Z) :
  (- Z.of_nat (List.length l) <= i < Z.of_nat (List.length l))%Z ->
  exists a, iloc l i = Ok a.
Proof.
  intros Hi. unfold iloc.
  set (n := Z.of_nat (List.length l)) in *.
  set (k := if (i <? 0)%Z then (n + i)%Z else i).
  assert (0 <= k < n)%Z as Hk.
  { unfold k. destruct (Z.ltb_spec i 0); lia. }
  replace ((0 <=? k)%Z && (k <? n)%Z) with true
    by (symmetry; apply andb_true_iff; split;
        [apply Z.leb_le|apply Z.ltb_lt]; lia).
  destruct (nth_error l (Z.to_nat k)) as [a|] eqn:E.
  - now exists a.
  - apply nth_error_None in E. unfold n in Hk. lia.
Qed.

Lemma iloc_out_of_range {A : Type} (l : list A) (i : Z) :
  ~ (- Z.of_nat (List.length l) <= i < Z.of_nat (List.length l))%Z ->
  iloc l i = Raise IndexError.
Proof.
  intros Hi. unfold iloc.
  set (n := Z.of_nat (List.length l)) in *.
  set (k := if (i <? 0)%Z then (n + i)%Z else i).
  assert (~ (0 <= k < n)%Z) as Hk.
  { unfold k. destruct (Z.ltb_spec i 0); lia. }
  destruct ((0 <=? k)%Z && (k <? n)%Z) eqn:E; [|reflexivity].
  apply andb_true_iff in E. destruct E as [E1 E2].
  apply Z.leb_le in E1. apply Z.ltb_lt in E2. lia.
Qed.

(** C8 as the code has it: the loader raises IndexError when the header row
    index lies outside [-rows, rows), a negative index counting from the last
    row; with the header row found, it returns a table, whatever the first
    data row index and also for a sheet with the identifier column alone,
    unless the header row has no column, holds the text "geo" after its
    first cell, gives the same label to two value columns, or gives a value
    column the label "taxa_vaga", the name that [melt] is asked to give the
    column of values. *)
Theorem C8_loader_raises_on_header_only `{FloatText} (bruto : RawGrid) (h d : Z) :
  (~ (- Z.of_nat (List.length bruto) <= h < Z.of_nat (List.length bruto))%Z ->
   carregar_tabela_vagas bruto h d = Raise IndexError) /\
  ((- Z.of_nat (List.length bruto) <= h < Z.of_nat (List.length bruto))%Z ->
   exists cab,
     iloc bruto h = Ok cab /\
     ((exists r, carregar_tabela_vagas bruto h d = Ok r) <->
      cab <> [] /\
      ~ In "geo" (tl (montar_nomes_colunas cab)) /\
      NoDup (colunas_de_valor (montar_nomes_colunas cab)) /\
      ~ In "taxa_vaga" (colunas_de_valor (montar_nomes_colunas cab)))).
Proof.
  split.
  - intros Hout. unfold carregar_tabela_vagas.
    now rewrite (iloc_out_of_range bruto h Hout).
  - intros Hin. destruct (iloc_in_range bruto h Hin) as [cab Hcab].
    exists cab. split; [assumption|].
    rewrite (carregar_tabela_vagas_forma bruto h d cab Hcab).
    destruct cab as [|c r].
    + cbn. split; [intros [? E]; discriminate|intros [E _]; congruence].
    + rewrite montar_nomes_colunas_cons. cbn [tl].
      set (rot := rotulos_seguintes "geo" r).
      destruct (existsb (String.eqb "geo") rot) eqn:Hgeo.
      * apply existsb_eqb_In in Hgeo.
        split; [intros [? E]; discriminate|intros [_ [E _]]; contradiction].
      * assert (~ In "geo" rot) as Hnot.
        { intros HIn. apply existsb_eqb_In in HIn. congruence. }
        destruct (unique (colunas_de_valor ("geo" :: rot))) eqn:Huni.
        -- apply unique_NoDup in Huni.
           destruct (existsb (String.eqb "taxa_vaga")
                             (colunas_de_valor ("geo" :: rot))) eqn:Hval.
           ++ apply existsb_eqb_In in Hval.
              split; [intros [? E]; discriminate|].
              intros [_ [_ [_ E]]]. contradiction.
           ++ assert (~ In "taxa_vaga" (colunas_de_valor ("geo" :: rot)))
                as Hnval.
              { intros HIn. apply existsb_eqb_In in HIn. congruence. }
              split; [intros _|intros _; eexists; reflexivity].
              repeat split; [discriminate|assumption|assumption|assumption].
        -- split; [intros [? E]; discriminate|].
           intros [_ [_ [E _]]]. apply unique_NoDup in E. congruence.
Qed.

Lemma C8_loader_raises_witness :
  (- Z.of_nat (List.length folha_amostra) <= -4
   < Z.of_nat (List.length folha_amostra))%Z /\
  exists cab,
    iloc folha_amostra (-4) = Ok cab /\
    ((exists r, @carregar_tabela_vagas FloatText_amostra folha_amostra (-4) 9
                = Ok r) <->
     cab <> [] /\
     ~ In "geo" (tl (@montar_nomes_colunas FloatText_amostra cab)) /\
     NoDup (colunas_de_valor (@montar_nomes_colunas FloatText_amostra cab)) /\
     ~ In "taxa_vaga"
          (colunas_de_valor (@montar_nomes_colunas FloatText_amostra cab))).
Proof.
  split; [simpl; lia|].
  apply (proj2 (@C8_loader_raises_on_header_only FloatText_amostra
                  folha_amostra (-4) 9)).
  simpl; lia.
Defined.

(** C8 as stated fails: a first data row beyond the sheet, and a sheet
    without any value column, both give an empty table and no error. *)
Lemma C8_no_error_beyond_sheet_or_single_column :
  ((Z.of_nat (List.length folha_amostra) <= 9)%Z /\
   @carregar_tabela_vagas FloatText_amostra folha_amostra 0 9
   = Ok ({| nomes := ["geo"; "trimestre"; "taxa_vaga"];
            registros := [];
            categorias := ["2022-Q1"; "2022-Q2"] |},
         ["2022-Q1"; "2022-Q2"], None)) /\
  (Forall (fun linha => List.length linha < 2) folha_so_geo /\
   @carregar_tabela_vagas FloatText_amostra folha_so_geo 0 1
   = Ok ({| nomes := ["geo"; "trimestre"; "taxa_vaga"];
            registros := [];
            categorias := [] |}, [], None)).
Proof.
  split; split.
  - simpl; lia.
  - reflexivity.
  - repeat constructor.
  - reflexivity.
Qed.

(** ** Order of the rows *)

Lemma codigo_In (l : list string) (y : string) :
  In y l -> exists b, codigo l y = Some b.
Proof.
  induction l as [|x l IH]; intros Hy; [contradiction|].
  simpl. destruct (String.eqb_spec x y) as [E|E]; [now exists 0|].
  destruct Hy as [Hy|Hy]; [contradiction|].
  destruct (IH Hy) as [b Hb]. rewrite Hb. now exists (S b).
Qed.

Lemma codigo_app (l1 l2 : list string) (y : string) :
  ~ In y l1 ->
  codigo (l1 ++ l2) y = option_map (Nat.add (List.length l1)) (codigo l2 y).
Proof.
  induction l1 as [|x l1 IH]; intros Hy; simpl.
  - now destruct (codigo l2 y).
  - destruct (String.eqb_spec x y) as [E|E]; [exfalso; apply Hy; now left|].
    rewrite IH by (intros HIn; apply Hy; now right).
    now destruct (codigo l2 y).
Qed.

Lemma nao_depois_split (l1 l2 : list string) (x y : string) :
  NoDup (l1 ++ x :: l2) -> In y (x :: l2) ->
  nao_depois (l1 ++ x :: l2) x y.
Proof.
  intros Hnd Hy.
  assert (forall z, In z (x :: l2) -> ~ In z l1) as Hsep.
  { intros z Hz Hz1. revert Hnd Hz. clear -Hz1.
    induction l1 as [|a l1 IH]; [contradiction|].
    simpl. intros Hnd Hz. inversion Hnd as [|? ? Ha Hl]; subst.
    destruct Hz1 as [->|Hz1].
    - apply Ha. apply in_or_app. now right.
    - now apply IH. }
  unfold nao_depois.
  rewrite (codigo_app l1 (x :: l2) x) by (apply Hsep; now left).
  rewrite (codigo_app l1 (x :: l2) y) by (now apply Hsep).
  cbn [codigo]. rewrite String.eqb_refl.
  destruct (String.eqb_spec x y) as [E|E].
  - exists (List.length l1 + 0), (List.length l1 + 0). cbn. repeat split. lia.
  - destruct Hy as [Hy|Hy]; [contradiction|].
    destruct (codigo_In l2 y Hy) as [b Hb]. rewrite Hb.
    exists (List.length l1 + 0), (List.length l1 + S b). cbn.
    repeat split. lia.
Qed.

Lemma StronglySorted_app {A : Type} (R : A -> A -> Prop) (l1 l2 : list A) :
  StronglySorted R l1 -> StronglySorted R l2 ->
  (forall x y, In x l1 -> In y l2 -> R x y) ->
  StronglySorted R (l1 ++ l2).
Proof.
  induction l1 as [|a l1 IH]; intros H1 H2 H12; [exact H2|].
  simpl. inversion H1 as [|? ? Hs Hf]; subst. constructor.
  - apply IH; [assumption|assumption|].
    intros x y Hx Hy. apply H12; [now right|assumption].
  - apply Forall_app. split; [assumption|].
    apply Forall_forall. intros y Hy. apply H12; [now left|assumption].
Qed.

Lemma StronglySorted_constant {A : Type} (R : A -> A -> Prop) (a : A) (l : list A) :
  R a a -> (forall y, In y l -> y = a) -> StronglySorted R l.
Proof.
  intros Ha. induction l as [|x l IH]; intros Hl; constructor.
  - apply IH. intros y Hy. apply Hl. now right.
  - rewrite (Hl x (or_introl eq_refl)).
    apply Forall_forall. intros y Hy. rewrite (Hl y (or_intror Hy)). exact Ha.
Qed.

(** Blocks laid one after the other, each made of one label, the labels
    being distinct: the labels come in the order of the blocks. *)
Lemma blocos_ordenados {A : Type} (key : A -> string) (G : A -> list string) :
  (forall a y, In y (G a) -> y = key a) ->
  forall pre suf : list A,
    NoDup (map key (pre ++ suf)) ->
    StronglySorted (nao_depois (map key (pre ++ suf))) (flat_map G suf).
Proof.
  intros HG pre suf. revert pre.
  induction suf as [|a suf IH]; intros pre Hnd; [constructor|].
  cbn [flat_map].
  assert (forall y, In y (key a :: map key suf) ->
                    nao_depois (map key (pre ++ a :: suf)) (key a) y) as Hrel.
  { intros y Hy. rewrite map_app. cbn [map].
    apply nao_depois_split; [|assumption].
    now rewrite map_app in Hnd. }
  apply StronglySorted_app.
  - apply StronglySorted_constant with (a := key a); [|apply HG].
    apply Hrel. now left.
  - replace (pre ++ a :: suf) with ((pre ++ [a]) ++ suf) in *
      by (now rewrite <- app_assoc).
    now apply IH.
  - intros x y Hx Hy. rewrite (HG a x Hx). apply Hrel. right.
    apply in_flat_map in Hy. destruct Hy as [b [Hb Hy]].
    rewrite (HG b y Hy). now apply in_map.
Qed.

(** C9 as the code has it: the lines of the CSV file follow the rows of the
    tidy table, which are laid period by period: no line comes after a line
    of a later period of the period order, so of two lines of one entity the
    one of the earlier period is written first. *)
Theorem C9_csv_rows_period_major `{FloatText} (bruto : RawGrid) (h d : Z)
    (t : TidyFrame) (ordem : list string) (area : option string) :
  carregar_tabela_vagas bruto h d = Ok (t, ordem, area) ->
  exists corpo,
    to_csv t = ["geo"; "trimestre"; "taxa_vaga"] :: corpo /\
    List.length corpo = List.length (registros t) /\
    StronglySorted (nao_depois ordem) (map (fun l => nth 1 l "") corpo).
Proof.
  intros Hok.
  destruct (carregar_tabela_vagas_ok _ _ _ _ _ _ Hok)
    as [cab [Hcab [_ [_ [Hnd [Hordem [_ Hregs]]]]]]].
  exists (map linha_csv (registros t)).
  split; [|split].
  - unfold to_csv. f_equal.
    rewrite (carregar_tabela_vagas_forma bruto h d cab Hcab) in Hok.
    destruct (montar_nomes_colunas cab); [discriminate|].
    destruct (existsb _ _); [discriminate|].
    destruct (unique _); [|discriminate].
    destruct (existsb _ _); [discriminate|].
    now inversion Hok.
  - apply length_map.
  - rewrite map_map. cbn [linha_csv nth].
    change (map (fun x : TidyRecord => trimestre x) (registros t))
      with (map trimestre (registros t)).
    rewrite Hregs, map_flat_map, Hordem, <- posicoes_de_valor_labels.
    apply (blocos_ordenados snd
             (fun jc => map trimestre (bloco (iloc_from bruto d) jc))
             ltac:(intros jc y Hy; apply in_map_iff in Hy;
                   destruct Hy as [r [<- Hr]]; now apply bloco_In in Hr)
             [] (posicoes_de_valor (montar_nomes_colunas cab))).
    cbn [app]. rewrite posicoes_de_valor_labels. exact Hnd.
Qed.

Lemma C9_csv_rows_witness :
  @carregar_tabela_vagas FloatText_amostra folha_dois_por_dois 0 1
  = Ok (tabela_dois_por_dois, ["2022-Q1"; "2022-Q2"], None) /\
  exists corpo,
    @to_csv FloatText_amostra tabela_dois_por_dois
    = ["geo"; "trimestre"; "taxa_vaga"] :: corpo /\
    List.length corpo = List.length (registros tabela_dois_por_dois) /\
    StronglySorted (nao_depois ["2022-Q1"; "2022-Q2"])
                   (map (fun l => nth 1 l "") corpo).
Proof.
  split; [reflexivity|].
  apply (@C9_csv_rows_period_major FloatText_amostra folha_dois_por_dois 0 1
           tabela_dois_por_dois ["2022-Q1"; "2022-Q2"] None).
  reflexivity.
Defined.

(** C9 as stated fails: with two entities and two quarters the lines of one
    entity are parted by a line of the other. *)
Lemma C9_entity_rows_not_contiguous :
  @carregar_tabela_vagas FloatText_amostra folha_dois_por_dois 0 1
  = Ok (tabela_dois_por_dois, ["2022-Q1"; "2022-Q2"], None) /\
  map (fun l => nth 0 l "") (tl (@to_csv FloatText_amostra tabela_dois_por_dois))
  = ["Spain"; "France"; "Spain"; "France"] /\
  ~ contiguas
      (map (fun l => nth 0 l "")
           (tl (@to_csv FloatText_amostra tabela_dois_por_dois))).
Proof.
  split; [reflexivity|]. split; [reflexivity|].
  intros Hc.
  specialize (Hc 0 1 2 "Spain" ltac:(lia) ltac:(lia) eq_refl eq_refl).
  discriminate Hc.
Qed.

(** ** The stable sort *)

Section Sort.

Variable A : Type.
Variable leb : A -> A -> bool.
Hypothesis leb_total : forall x y, leb x y = false -> leb y x = true.
Hypothesis leb_trans :
  forall x y z, leb x y = true -> leb y z = true -> leb x z = true.

Lemma inserir_perm (x : A) (l : list A) : Permutation (inserir leb x l) (x :: l).
Proof.
  induction l as [|y l IH]; simpl; [reflexivity|].
  destruct (leb x y); [reflexivity|].
  rewrite IH. apply perm_swap.
Qed.

Lemma ordenar_perm (l : list A) : Permutation (ordenar leb l) l.
Proof.
  induction l as [|x l IH]; simpl; [reflexivity|].
  rewrite inserir_perm. now constructor.
Qed.

Lemma inserir_sorted (x : A) (l : list A) :
  StronglySorted (fun a b => leb a b = true) l ->
  StronglySorted (fun a b => leb a b = true) (inserir leb x l).
Proof.
  induction l as [|y l IH]; intros Hs; simpl.
  - constructor; constructor.
  - inversion Hs as [|? ? Hl Hy]; subst.
    destruct (leb x y) eqn:E.
    + constructor; [assumption|].
      constructor; [assumption|].
      eapply Forall_impl; [|exact Hy].
      intros z Hz. eapply leb_trans; eassumption.
    + constructor; [now apply IH|].
      apply Forall_forall. intros z Hz.
      apply (Permutation_in _ (inserir_perm x l)) in Hz.
      destruct Hz as [<-|Hz]; [now apply leb_total|].
      rewrite Forall_forall in Hy. now apply Hy.
Qed.

Lemma ordenar_sorted (l : list A) :
  StronglySorted (fun a b => leb a b = true) (ordenar leb l).
Proof.
  induction l as [|x l IH]; simpl; [constructor|].
  now apply inserir_sorted.
Qed.

End Sort.

Lemma StronglySorted_filter {A : Type} (R : A -> A -> Prop) (p : A -> bool)
    (l : list A) :
  StronglySorted R l -> StronglySorted R (filter p l).
Proof.
  induction 1 as [|a l Hs IH Hf]; simpl; [constructor|].
  destruct (p a); [|assumption].
  constructor; [assumption|].
  apply Forall_forall. intros y Hy. apply filter_In in Hy.
  rewrite Forall_forall in Hf. now apply Hf.
Qed.

Lemma StronglySorted_map {A B : Type} (R : B -> B -> Prop) (f : A -> B)
    (l : list A) :
  StronglySorted (fun a b => R (f a) (f b)) l -> StronglySorted R (map f l).
Proof.
  induction 1 as [|a l Hs IH Hf]; simpl; constructor; [assumption|].
  apply Forall_forall. intros y Hy. apply in_map_iff in Hy.
  destruct Hy as [b [<- Hb]]. rewrite Forall_forall in Hf. now apply Hf.
Qed.

Lemma StronglySorted_weaken {A : Type} (R S : A -> A -> Prop) (l : list A) :
  (forall a b, In a l -> In b l -> R a b -> S a b) ->
  StronglySorted R l -> StronglySorted S l.
Proof.
  intros HRS Hs. induction Hs as [|a l Hs IH Hf]; constructor.
  - apply IH. intros x y Hx Hy. apply HRS; now right.
  - rewrite Forall_forall in *. intros y Hy.
    apply HRS; [now left|now right|now apply Hf].
Qed.

Lemma Permutation_filter {A : Type} (p : A -> bool) (l l' : list A) :
  Permutation l l' -> Permutation (filter p l) (filter p l').
Proof.
  induction 1 as [|x l l' _ IH|x y l|l l' l'' _ IH1 _ IH2]; simpl.
  - constructor.
  - destruct (p x); [now constructor|assumption].
  - destruct (p x), (p y); try reflexivity. apply perm_swap.
  - now transitivity (filter p l').
Qed.

(** ** The order of [sort_values] *)

Lemma compare_lt_trans (a b c : string) :
  String.compare a b = Lt -> String.compare b c = Lt -> String.compare a c = Lt.
Proof.
  intros Hab Hbc.
  apply String_as_OT.cmp_lt. apply String_as_OT.cmp_lt in Hab, Hbc.
  eapply String_as_OT.lt_trans; eassumption.
Qed.

Lemma compare_refl (a : string) : String.compare a a = Eq.
Proof. now apply String_as_OT.cmp_eq. Qed.

Lemma codigo_leb_total (a b : option nat) :
  codigo_leb a b = false -> codigo_leb b a = true.
Proof.
  destruct a as [x|], b as [y|]; simpl; try congruence.
  intros E. apply Nat.leb_gt in E. apply Nat.leb_le. lia.
Qed.

Lemma codigo_leb_trans (a b c : option nat) :
  codigo_leb a b = true -> codigo_leb b c = true -> codigo_leb a c = true.
Proof.
  destruct a as [x|], b as [y|], c as [z|]; simpl; try congruence.
  intros E1 E2. apply Nat.leb_le in E1, E2. apply Nat.leb_le. lia.
Qed.

Lemma chave_leb_total (categories : list string) (r1 r2 : TidyRecord) :
  chave_leb categories r1 r2 = false -> chave_leb categories r2 r1 = true.
Proof.
  unfold chave_leb. rewrite (String.compare_antisym (texto (geo r2))).
  destruct (String.compare (texto (geo r1)) (texto (geo r2))); simpl;
    try congruence.
  apply codigo_leb_total.
Qed.

Lemma chave_leb_trans (categories : list string) (r1 r2 r3 : TidyRecord) :
  chave_leb categories r1 r2 = true -> chave_leb categories r2 r3 = true ->
  chave_leb categories r1 r3 = true.
Proof.
  unfold chave_leb.
  destruct (String.compare (texto (geo r1)) (texto (geo r2))) eqn:E12;
    try congruence;
    destruct (String.compare (texto (geo r2)) (texto (geo r3))) eqn:E23;
    try congruence.
  - apply String.compare_eq_iff in E12, E23. rewrite E12, E23, compare_refl.
    apply codigo_leb_trans.
  - apply String.compare_eq_iff in E12. rewrite E12, E23. reflexivity.
  - apply String.compare_eq_iff in E23. rewrite <- E23, E12. reflexivity.
  - now rewrite (compare_lt_trans _ _ _ E12 E23).
Qed.

Lemma sort_values_perm (categories : list string) (l : list TidyRecord) :
  Permutation (sort_values categories l) l.
Proof. apply ordenar_perm. Qed.

Lemma sort_values_sorted (categories : list string) (l : list TidyRecord) :
  StronglySorted (fun a b => chave_leb categories a b = true)
                 (sort_values categories l).
Proof.
  apply ordenar_sorted;
    [apply chave_leb_total|apply chave_leb_trans].
Qed.

(** ** The chart *)

Lemma isin_true (paises : list string) (c : Cell) :
  isin paises c = true <-> exists s, c = CStr s /\ In s paises.
Proof.
  destruct c as [f|s|]; simpl.
  - split; [discriminate|intros [s [E _]]; discriminate].
  - rewrite existsb_eqb_In. split.
    + intros Hs. now exists s.
    + intros [s' [E Hs']]. now inversion E.
  - split; [discriminate|intros [s [E _]]; discriminate].
Qed.

Lemma filter_filter {A : Type} (p q : A -> bool) (l : list A) :
  filter p (filter q l) = filter (fun x => q x && p x) l.
Proof.
  induction l as [|x l IH]; simpl; [reflexivity|].
  destruct (q x); simpl; [|assumption].
  destruct (p x); now rewrite IH.
Qed.

Lemma da_entidade_isin (paises : list string) (g : string) (r : TidyRecord) :
  In g paises ->
  isin paises (geo r) && (texto (geo r) =? g) = da_entidade g r.
Proof.
  intros Hg. unfold da_entidade.
  destruct (Cell_eq_dec (geo r) (CStr g)) as [E|E].
  - rewrite E. simpl. rewrite String.eqb_refl, andb_true_r.
    now apply existsb_eqb_In.
  - destruct (geo r) as [f|s|]; simpl; try reflexivity.
    destruct (String.eqb_spec s g) as [->|_]; [congruence|].
    apply andb_false_r.
Qed.

(** The series drawn from the selected rows once sorted: each is a
    requested entity with its rows of the table, and its quarters follow the
    order of the categories. *)
Lemma desenhar_series (t : TidyFrame) (paises : list string) (s : Serie) :
  (forall r, In r (registros t) -> In (trimestre r) (categorias t)) ->
  In s (desenhar (categorias t)
          (sort_values (categorias t)
             (filter (fun r => isin paises (geo r)) (registros t)))) ->
  exists grupo,
    Permutation grupo (filter (da_entidade (label s)) (registros t)) /\
    In (label s) paises /\
    xs s = map trimestre grupo /\
    ys s = map taxa_vaga grupo /\
    StronglySorted (nao_depois (categorias t)) (xs s).
Proof.
  intros Hcat Hs.
  set (cats := categorias t) in *.
  set (recorte := filter (fun r => isin paises (geo r)) (registros t)) in *.
  set (ordenado := sort_values cats recorte) in *.
  unfold desenhar, groupby in Hs. rewrite map_map in Hs.
  apply in_map_iff in Hs. destruct Hs as [g [Es Hg]]. cbn [fst snd] in Es.
  apply (Permutation_in _ (ordenar_perm _ String.leb _)) in Hg.
  apply nodup_In, in_map_iff in Hg. destruct Hg as [r0 [Er0 Hr0]].
  assert (forall r, In r ordenado -> In r (registros t) /\ isin paises (geo r) = true)
    as Hord.
  { intros r Hr. apply (Permutation_in _ (sort_values_perm cats recorte)) in Hr.
    now apply filter_In in Hr. }
  assert (In g paises) as Hgp.
  { destruct (Hord r0 Hr0) as [_ Hin]. apply isin_true in Hin.
    destruct Hin as [s0 [E Hs0]]. rewrite E in Er0. simpl in Er0. now subst. }
  set (grupo := filter (fun r => texto (geo r) =? g) ordenado) in *.
  assert (forall r, In r grupo ->
            texto (geo r) = g /\
            exists k, codigo cats (trimestre r) = Some k) as Hgrupo.
  { intros r Hr. apply filter_In in Hr. destruct Hr as [Hr E].
    apply String.eqb_eq in E. split; [assumption|].
    apply codigo_In, Hcat. now apply Hord. }
  assert (map (astype_str cats) grupo = map trimestre grupo) as Hxs.
  { apply map_ext_in. intros r Hr. unfold astype_str.
    destruct (Hgrupo r Hr) as [_ [k ->]]. reflexivity. }
  exists grupo. subst s. cbn [label xs ys]. rewrite Hxs.
  split; [|split; [assumption|split; [reflexivity|split; [reflexivity|]]]].
  - unfold grupo, ordenado.
    etransitivity; [apply Permutation_filter, sort_values_perm|].
    unfold recorte. rewrite filter_filter.
    erewrite filter_ext; [reflexivity|].
    intros r. now apply da_entidade_isin.
  - apply StronglySorted_map.
    apply (StronglySorted_weaken (fun a b => chave_leb cats a b = true)).
    + intros a b Ha Hb Hab. unfold chave_leb in Hab.
      destruct (Hgrupo a Ha) as [Ea [ka Hka]].
      destruct (Hgrupo b Hb) as [Eb [kb Hkb]].
      rewrite Ea, Eb, compare_refl, Hka, Hkb in Hab. simpl in Hab.
      apply Nat.leb_le in Hab. now exists ka, kb.
    + apply StronglySorted_filter, sort_values_sorted.
Qed.

Lemma plot_job_vacancies_series_sorted (t : TidyFrame)
    (ordem paises : list string) (caminho : Path) (fs fs' : list Efeito) :
  ordem = categorias t ->
  (forall r, In r (registros t) -> In (trimestre r) ordem) ->
  plot_job_vacancies t ordem paises caminho fs = (Ok tt, fs') ->
  exists fig,
    fs' = fs ++ [Mkdir (parent caminho); Savefig caminho fig] /\
    series_em_ordem t ordem paises fig.
Proof.
  intros -> Hcat Hrun. unfold plot_job_vacancies in Hrun.
  pose proof (fun s => desenhar_series t paises s Hcat) as Hser.
  destruct (filter (fun r => isin paises (geo r)) (registros t))
    as [|r0 recorte] eqn:Hrec; [discriminate|].
  unfold bindIO, efeito in Hrun. inversion Hrun; subst; clear Hrun.
  eexists. split; [now rewrite <- app_assoc|].
  intros s Hs. cbn [series] in Hs. now apply Hser.
Qed.

(** C5: given a tidy table whose quarter labels all belong to its
    categories, and the period order that matches them, a chart that is
    drawn holds one series per requested entity found, made of the rows of
    that entity, and along each series the quarters stand by their position
    in the period order, whatever the order of their texts. *)
Theorem C5_series_sorted_by_period_order (t : TidyFrame)
    (ordem paises : list string) (nome_aba : string) (caminho : Path)
    (fs fs' : list Efeito) :
  ordem = categorias t ->
  (forall r, In r (registros t) -> In (trimestre r) ordem) ->
  plotar_taxa_vagas t ordem paises nome_aba caminho fs = (Ok tt, fs') ->
  exists fig,
    fs' = fs ++ [Mkdir (parent caminho); Savefig caminho fig] /\
    series_em_ordem t ordem paises fig.
Proof.
  intros -> Hcat Hrun. unfold plotar_taxa_vagas in Hrun.
  pose proof (fun s => desenhar_series t paises s Hcat) as Hser.
  destruct (filter (fun r => isin paises (geo r)) (registros t))
    as [|r0 recorte] eqn:Hrec; [discriminate|].
  unfold bindIO, efeito in Hrun. inversion Hrun; subst; clear Hrun.
  eexists. split; [now rewrite <- app_assoc|].
  intros s Hs. cbn [series] in Hs. now apply Hser.
Qed.

Lemma C5_series_sorted_witness :
  (["Q4-2020"; "Q1-2021"] = categorias tabela_contra_texto /\
   (forall r, In r (registros tabela_contra_texto) ->
              In (trimestre r) ["Q4-2020"; "Q1-2021"]) /\
   plotar_taxa_vagas tabela_contra_texto ["Q4-2020"; "Q1-2021"]
     ["Spain"; "Germany"] "Sheet 19" ["plots"; "grafico.png"] []
   = (Ok tt, [Mkdir ["plots"]; Savefig ["plots"; "grafico.png"] figura_contra_texto]) /\
   String.ltb "Q1-2021" "Q4-2020" = true) /\
  exists fig,
    [Mkdir ["plots"]; Savefig ["plots"; "grafico.png"] figura_contra_texto]
    = [] ++ [Mkdir (parent ["plots"; "grafico.png"]);
             Savefig ["plots"; "grafico.png"] fig] /\
    series_em_ordem tabela_contra_texto ["Q4-2020"; "Q1-2021"]
                    ["Spain"; "Germany"] fig.
Proof.
  assert (forall r, In r (registros tabela_contra_texto) ->
                    In (trimestre r) ["Q4-2020"; "Q1-2021"]) as Hcat.
  { intros r [<-|[<-|[<-|[]]]]; simpl; auto. }
  split; [repeat split; solve [reflexivity|exact Hcat]|].
  exact (C5_series_sorted_by_period_order tabela_contra_texto
           ["Q4-2020"; "Q1-2021"] ["Spain"; "Germany"] "Sheet 19"
           ["plots"; "grafico.png"] [] _ eq_refl Hcat eq_refl).
Defined.

(** C6: when no row of the tidy table carries a requested entity, drawing
    raises ValueError and the file system is left as it was: no folder is
    made and no image is saved. *)
Theorem C6_disjoint_filter_raises_before_any_effect (t : TidyFrame)
    (ordem paises : list string) (nome_aba : string) (caminho : Path)
    (fs : list Efeito) :
  (forall r s, In r (registros t) -> geo r = CStr s -> ~ In s paises) ->
  plotar_taxa_vagas t ordem paises nome_aba caminho fs = (Raise ValueError, fs) /\
  plot_job_vacancies t ordem paises caminho fs = (Raise ValueError, fs).
Proof.
  intros Hdisj.
  assert (filter (fun r => isin paises (geo r)) (registros t) = []) as E.
  { induction (registros t) as [|r l IH]; [reflexivity|].
    simpl. destruct (isin paises (geo r)) eqn:Hin.
    - apply isin_true in Hin. destruct Hin as [s [Hs Hp]].
      exfalso. apply (Hdisj r s); [now left|assumption|assumption].
    - apply IH. intros r' s Hr'. apply Hdisj. now right. }
  unfold plotar_taxa_vagas, plot_job_vacancies. rewrite E.
  split; reflexivity.
Qed.

Lemma C6_disjoint_filter_witness :
  (forall r s, In r (registros tabela_amostra) -> geo r = CStr s ->
               ~ In s ["Germany"; "Unknown Country"]) /\
  plotar_taxa_vagas tabela_amostra ["2022-Q1"; "2022-Q2"]
    ["Germany"; "Unknown Country"] "Sheet 19" ["plots"; "grafico.png"] []
  = (Raise ValueError, []) /\
  plot_job_vacancies tabela_amostra ["2022-Q1"; "2022-Q2"]
    ["Germany"; "Unknown Country"] ["plots"; "grafico.png"] []
  = (Raise ValueError, []).
Proof.
  assert (forall r s, In r (registros tabela_amostra) -> geo r = CStr s ->
                      ~ In s ["Germany"; "Unknown Country"]) as Hdisj.
  { intros r s [<-|[<-|[<-|[]]]] E; inversion E; subst;
      intros [D|[D|[]]]; discriminate D. }
  split; [exact Hdisj|].
  exact (C6_disjoint_filter_raises_before_any_effect tabela_amostra
           ["2022-Q1"; "2022-Q2"] ["Germany"; "Unknown Country"] "Sheet 19"
           ["plots"; "grafico.png"] [] Hdisj).
Defined.

(** ** The round trip *)

Lemma flat_map_nil {A B : Type} (F : A -> list B) (l : list A) :
  (forall a, In a l -> F a = []) -> flat_map F l = [].
Proof.
  induction l as [|a l IH]; intros HF; simpl; [reflexivity|].
  rewrite (HF a (or_introl eq_refl)), IH; [reflexivity|].
  intros b Hb. apply HF. now right.
Qed.

Lemma filter_nil {A : Type} (p : A -> bool) (l : list A) :
  (forall a, In a l -> p a = false) -> filter p l = [].
Proof.
  induction l as [|a l IH]; intros Hp; simpl; [reflexivity|].
  rewrite (Hp a (or_introl eq_refl)). apply IH.
  intros b Hb. apply Hp. now right.
Qed.

(** Among blocks with distinct keys, one key selects one block. *)
Lemma flat_map_unico {A B K : Type} (key : A -> K) (F : A -> list B)
    (l : list A) (a : A) :
  NoDup (map key l) -> In a l ->
  (forall b, In b l -> key b <> key a -> F b = []) ->
  flat_map F l = F a.
Proof.
  induction l as [|x l IH]; intros Hnd Ha HF; [contradiction|].
  cbn [map] in Hnd. inversion Hnd as [|? ? Hx Hl]; subst.
  cbn [flat_map]. destruct Ha as [->|Ha].
  - rewrite flat_map_nil; [apply app_nil_r|].
    intros b Hb. apply HF; [now right|].
    intros E. apply Hx. rewrite <- E. now apply in_map.
  - rewrite (HF x (or_introl eq_refl)).
    + apply IH; [assumption|assumption|].
      intros b Hb. apply HF. now right.
    + intros E. apply Hx. rewrite E. now apply in_map.
Qed.

(** In a list with distinct keys, a test that holds of one element and of
    no other key selects that element. *)
Lemma filter_unico {A K : Type} (key : A -> K) (p : A -> bool)
    (l : list A) (a : A) :
  NoDup (map key l) -> In a l -> p a = true ->
  (forall b, In b l -> p b = true -> key b = key a) ->
  filter p l = [a].
Proof.
  induction l as [|x l IH]; intros Hnd Ha Hpa Hp; [contradiction|].
  cbn [map] in Hnd. inversion Hnd as [|? ? Hx Hl]; subst.
  cbn [filter]. destruct Ha as [->|Ha].
  - rewrite Hpa. f_equal. apply filter_nil. intros b Hb.
    destruct (p b) eqn:E; [|reflexivity].
    exfalso. apply Hx. rewrite <- (Hp b (or_intror Hb) E). now apply in_map.
  - destruct (p x) eqn:E.
    + exfalso. apply Hx. rewrite (Hp x (or_introl eq_refl) E). now apply in_map.
    + apply IH; [assumption|assumption|assumption|].
      intros b Hb. apply Hp. now right.
Qed.

Lemma filter_map_comm {A B : Type} (p : B -> bool) (f : A -> B) (l : list A) :
  filter p (map f l) = map f (filter (fun x => p (f x)) l).
Proof.
  induction l as [|x l IH]; simpl; [reflexivity|].
  destruct (p (f x)); simpl; now rewrite IH.
Qed.

Lemma substituir_inj (a b : Cell) :
  isna a = false -> isna b = false -> substituir a = substituir b -> a = b.
Proof.
  destruct a as [fa|sa|], b as [fb|sb|]; simpl; try discriminate;
    intros _ _.
  - trivial.
  - destruct (String.eqb_spec sb ":"); discriminate.
  - destruct (String.eqb_spec sa ":"); discriminate.
  - destruct (String.eqb_spec sa ":"), (String.eqb_spec sb ":");
      try congruence; discriminate.
Qed.

(** C7 as the code has it: when the loader returns a table and the data
    rows that carry an identifier carry distinct ones, the wide table keyed
    on entity and period gives back, for every cell of a value column that
    holds a float64 number other than NaN, exactly that number. *)
Theorem C7_round_trip_for_distinct_identifiers `{FloatText}
    (bruto : RawGrid) (h d : Z) (t : TidyFrame) (ordem : list string)
    (area : option string) (cab linha : list Cell) (j : nat) (col : string)
    (f : spec_float) :
  carregar_tabela_vagas bruto h d = Ok (t, ordem, area) ->
  iloc bruto h = Ok cab ->
  NoDup (map (fun l => celula l 0) (linhas_com_geo (iloc_from bruto d))) ->
  In linha (iloc_from bruto d) ->
  isna (celula linha 0) = false ->
  nth_error (montar_nomes_colunas cab) j = Some col ->
  In col ordem ->
  celula linha j = CNum f ->
  binary64 f = true ->
  is_nan f = false ->
  pivot (registros t) (substituir (celula linha 0)) col = Some f.
Proof.
  intros Hok Hcab Hnd Hlinha Hgeo Hj Hcol Hcel _ Hf.
  destruct (carregar_tabela_vagas_ok _ _ _ _ _ _ Hok)
    as [cab' [Hcab' [_ [_ [Hcv [Hordem [_ Hregs]]]]]]].
  assert (cab' = cab) by congruence. subst cab'.
  set (dados := iloc_from bruto d) in *.
  set (pv := posicoes_de_valor (montar_nomes_colunas cab)) in *.
  set (e := substituir (celula linha 0)).
  assert (In (j, col) pv) as Hjc.
  { apply posicoes_de_valor_In. split; [assumption|].
    rewrite Hordem in Hcol. now apply filter_In in Hcol. }
  assert (In linha (linhas_com_geo dados)) as Hkept.
  { apply filter_In. split; [assumption|]. unfold notna. now rewrite Hgeo. }
  unfold pivot. rewrite Hregs, filter_flat_map.
  rewrite (flat_map_unico snd _ pv (j, col)).
  - unfold bloco. rewrite filter_filter, filter_map_comm.
    rewrite (filter_unico (fun l => celula l 0) _ _ linha Hnd Hkept).
    + unfold registro_de. cbn [map taxa_vaga fst]. now rewrite Hcel.
    + unfold com_chave, registro_de. cbn [geo trimestre taxa_vaga fst snd].
      fold e. rewrite Hcel. unfold valor_lido. cbn [substituir to_numeric].
      rewrite Hf.
      destruct (Cell_eq_dec e e); [|congruence].
      now rewrite String.eqb_refl.
    + intros b Hb Hp. apply andb_true_iff in Hp. destruct Hp as [_ Hp].
      unfold com_chave, registro_de in Hp. cbn [geo trimestre] in Hp.
      apply andb_true_iff in Hp. destruct Hp as [Hp _].
      destruct (Cell_eq_dec (substituir (celula b 0)) e) as [E|]; [|discriminate].
      apply substituir_inj; [|assumption|exact E].
      apply filter_In in Hb. destruct Hb as [_ Hb].
      unfold notna in Hb. now apply negb_true_iff in Hb.
  - unfold pv. now rewrite posicoes_de_valor_labels.
  - assumption.
  - intros jc Hjc' Hne. cbn [snd] in Hne. apply filter_nil.
    intros r Hr. apply bloco_In in Hr. destruct Hr as [Hr _].
    unfold com_chave. rewrite Hr.
    destruct (String.eqb_spec (snd jc) col); [contradiction|].
    apply andb_false_r.
Qed.

Lemma C7_round_trip_witness :
  (@carregar_tabela_vagas FloatText_amostra folha_binary64 0 1
   = Ok (tabela_binary64, ["2022-Q1"; "2022-Q2"], None) /\
   iloc folha_binary64 0 = Ok [CStr "TIME"; CStr "2022-Q1"; CStr "2022-Q2"] /\
   NoDup (map (fun l => celula l 0)
              (linhas_com_geo (iloc_from folha_binary64 1))) /\
   In [CStr "France"; CNum (S754_finite false 4503599627370496 (-53));
       CNum (S754_finite false 6192449487634432 (-51))]
      (iloc_from folha_binary64 1) /\
   nth_error (@montar_nomes_colunas FloatText_amostra
                [CStr "TIME"; CStr "2022-Q1"; CStr "2022-Q2"]) 2
   = Some "2022-Q2" /\
   In "2022-Q2" ["2022-Q1"; "2022-Q2"] /\
   binary64 (S754_finite false 6192449487634432 (-51)) = true) /\
  pivot (registros tabela_binary64) (CStr "France") "2022-Q2"
  = Some (S754_finite false 6192449487634432 (-51)).
Proof.
  assert (NoDup (map (fun l => celula l 0)
                     (linhas_com_geo (iloc_from folha_binary64 1)))) as Hnd.
  { cbn. constructor; [intros [E|[]]; discriminate E|].
    constructor; [intros []|constructor]. }
  split.
  - split; [reflexivity|]. split; [reflexivity|]. split; [exact Hnd|].
    split; [right; left; reflexivity|]. split; [reflexivity|].
    split; [right; left; reflexivity|reflexivity].
  - exact (@C7_round_trip_for_distinct_identifiers FloatText_amostra
             folha_binary64 0 1 tabela_binary64 ["2022-Q1"; "2022-Q2"] None
             [CStr "TIME"; CStr "2022-Q1"; CStr "2022-Q2"]
             [CStr "France"; CNum (S754_finite false 4503599627370496 (-53));
              CNum (S754_finite false 6192449487634432 (-51))]
             2 "2022-Q2" (S754_finite false 6192449487634432 (-51))
             eq_refl eq_refl Hnd
             (or_intror (or_introl eq_refl)) eq_refl eq_refl
             (or_intror (or_introl eq_refl)) eq_refl eq_refl eq_refl).
Defined.

(** C7 as stated fails: on a sheet that names one entity on two rows the
    two cells of a quarter share their key, and no table keyed on entity and
    period holds them both. *)
Lemma C7_repeated_entity_not_recovered :
  exists t ordem area,
    @carregar_tabela_vagas FloatText_amostra folha_repetida 0 1
    = Ok (t, ordem, area) /\
    celula (nth 1 folha_repetida []) 1 = CNum (S754_finite false 1 0) /\
    celula (nth 2 folha_repetida []) 1 = CNum (S754_finite false 1 1) /\
    celula (nth 1 folha_repetida []) 0 = celula (nth 2 folha_repetida []) 0 /\
    pivot (registros t) (CStr "Spain") "2022-Q1" = None /\
    ~ exists largo : Cell -> string -> option spec_float,
        largo (celula (nth 1 folha_repetida []) 0) "2022-Q1"
        = Some (S754_finite false 1 0) /\
        largo (celula (nth 2 folha_repetida []) 0) "2022-Q1"
        = Some (S754_finite false 1 1).
Proof.
  eexists. eexists. eexists.
  split; [reflexivity|].
  repeat split; try reflexivity.
  intros [largo [E1 E2]]. cbn in E1, E2. congruence.
Qed.

(** ** The sheet 19 script *)

Lemma posicoes_In (cols : list string) (k : string) (j : nat) :
  In j (posicoes cols k) <-> nth_error cols j = Some k.
Proof.
  unfold posicoes. rewrite in_map_iff. split.
  - intros [[j' x] [E HIn]]. cbn in E. subst j'.
    apply filter_In in HIn. destruct HIn as [HIn Ex]. cbn in Ex.
    apply String.eqb_eq in Ex. subst x. now apply enumerate_In.
  - intros Hj. exists (j, k). split; [reflexivity|].
    apply filter_In. split; [now apply enumerate_In|].
    cbn. apply String.eqb_refl.
Qed.

(** The columns that a list of keys selects bear labels of the list. *)
Lemma selecionar_columns_sub (chaves : list string) (dados : Frame) (x : string) :
  In x (columns (replace (selecionar chaves dados))) -> In x chaves.
Proof.
  cbn [replace selecionar columns]. intros Hx.
  apply in_map_iff in Hx. destruct Hx as [j [<- Hj]].
  apply in_flat_map in Hj. destruct Hj as [k [Hk Hj]].
  apply posicoes_In in Hj. now rewrite (nth_error_nth _ _ "" Hj).
Qed.

(** [load_sheet19_table] is [carregar_tabela_vagas] at rows 10 and 12, with
    its own names for the columns and without the area text, on every sheet
    whose row 10 gives no value column the label "taxa_vaga" or
    "vacancy_rate", the two names that the loaders ask [melt] for. *)
Lemma load_sheet19_table_carregar `{FloatText} (raw : RawGrid) :
  (forall header_row,
      iloc raw 10 = Ok header_row ->
      ~ In "taxa_vaga" (colunas_de_valor (montar_nomes_colunas header_row)) /\
      ~ In "vacancy_rate" (colunas_de_valor (montar_nomes_colunas header_row))) ->
  load_sheet19_table raw
  = match carregar_tabela_vagas raw 10 12 with
    | Ok (t, ordem, _) =>
      Ok ({| nomes := ["geo"; "quarter"; "vacancy_rate"];
             registros := registros t;
             categorias := categorias t |}, ordem)
    | Raise e => Raise e
    end.
Proof.
  intros Hnames.
  unfold load_sheet19_table, carregar_tabela_vagas.
  destruct (iloc raw 10) as [cab|e] eqn:Hcab; [|reflexivity].
  destruct (Hnames cab eq_refl) as [Htaxa Hrate].
  cbn [bind]. rewrite build_columns_eq.
  destruct (filtrar_notna "geo" _) as [dados|e]; [|reflexivity].
  cbn [bind]. unfold melt.
  assert (forall v,
             ~ In v (colunas_de_valor (montar_nomes_colunas cab)) ->
             v <> "geo" ->
             existsb (String.eqb v)
               (columns
                  (replace
                     (selecionar
                        ("geo" :: colunas_de_valor (montar_nomes_colunas cab))
                        dados)))
             = false) as Hfree.
  { intros v Hv Hgeo.
    destruct (existsb (String.eqb v) _) eqn:E; [|reflexivity].
    apply existsb_eqb_In, selecionar_columns_sub in E.
    destruct E as [E|E]; [congruence|contradiction]. }
  rewrite (Hfree "taxa_vaga" Htaxa) by discriminate.
  rewrite (Hfree "vacancy_rate" Hrate) by discriminate.
  cbn [bind]. unfold Categorical.
  destruct (unique (colunas_de_valor (montar_nomes_colunas cab)));
    reflexivity.
Qed.

Lemma load_sheet19_table_carregar_witness :
  (forall header_row,
      iloc folha_dezenove 10 = Ok header_row ->
      ~ In "taxa_vaga"
           (colunas_de_valor (@montar_nomes_colunas FloatText_amostra header_row)) /\
      ~ In "vacancy_rate"
           (colunas_de_valor (@montar_nomes_colunas FloatText_amostra header_row))) /\
  @load_sheet19_table FloatText_amostra folha_dezenove
  = match @carregar_tabela_vagas FloatText_amostra folha_dezenove 10 12 with
    | Ok (t, ordem, _) =>
      Ok ({| nomes := ["geo"; "quarter"; "vacancy_rate"];
             registros := registros t;
             categorias := categorias t |}, ordem)
    | Raise e => Raise e
    end.
Proof.
  assert (forall header_row,
             iloc folha_dezenove 10 = Ok header_row ->
             ~ In "taxa_vaga"
                  (colunas_de_valor
                     (@montar_nomes_colunas FloatText_amostra header_row)) /\
             ~ In "vacancy_rate"
                  (colunas_de_valor
                     (@montar_nomes_colunas FloatText_amostra header_row)))
    as Hnames.
  { intros header_row E. cbv in E. inversion E; subst.
    split; cbn; intros [D|[]]; discriminate D. }
  split; [exact Hnames|].
  exact (@load_sheet19_table_carregar FloatText_amostra folha_dezenove Hnames).
Defined.

(** The sample sheet of the description: one row of the table for Spain,
    the second quarter being the sentinel. *)
Example carregar_uma_linha :
  @carregar_tabela_vagas FloatText_amostra
    [ [CStr "geo"; CStr "2022-Q1"; NaN; CStr "2022-Q2"; NaN];
      [CStr "Spain"; num 33 (-3); CStr "u"; CStr ":"; CStr "u"] ] 0 1
  = Ok ({| nomes := ["geo"; "trimestre"; "taxa_vaga"];
           registros := [ {| geo := CStr "Spain"; trimestre := "2022-Q1";
                             taxa_vaga := S754_finite false 33 (-3) |} ];
           categorias := ["2022-Q1"; "2022-Q2"] |},
        ["2022-Q1"; "2022-Q2"], None).
Proof. reflexivity. Qed.

(** ** File names *)

Ltac por_casos c :=
  destruct c as [[] [] [] [] [] [] [] []]; reflexivity.

Lemma alnum_lower_char (c : ascii) : alnum (lower_char c) = alnum c.
Proof. por_casos c. Qed.

Lemma lower_char_underscore (c : ascii) :
  Ascii.eqb (lower_char c) "_" = Ascii.eqb c "_".
Proof. por_casos c. Qed.

Lemma lower_char_idem (c : ascii) : lower_char (lower_char c) = lower_char c.
Proof. por_casos c. Qed.

Lemma slug_char_lower (c : ascii) :
  alnum c || Ascii.eqb c "_" = true -> slug_char (lower_char c) = true.
Proof.
  destruct c as [[] [] [] [] [] [] [] []]; intros E;
    solve [reflexivity | discriminate E].
Qed.

Lemma alnum_not_underscore (c : ascii) :
  alnum c = true -> Ascii.eqb c "_" = false.
Proof.
  destruct c as [[] [] [] [] [] [] [] []]; intros E;
    solve [reflexivity | discriminate E].
Qed.

Lemma limpo_re_sub (s : string) :
  forall dentro, limpo dentro (re_sub dentro s) = true.
Proof.
  induction s as [|c r IH]; intros dentro; [reflexivity|].
  cbn [re_sub]. destruct (alnum c) eqn:Ec.
  - cbn [limpo]. rewrite Ec. apply IH.
  - destruct dentro; [apply IH|].
    cbn [limpo]. change (alnum "_") with false. cbn. apply IH.
Qed.

Lemma limpo_weaken (s : string) : limpo true s = true -> limpo false s = true.
Proof.
  destruct s as [|c r]; [reflexivity|]. cbn [limpo].
  destruct (alnum c); [trivial|].
  rewrite andb_false_r. discriminate.
Qed.

Lemma limpo_inside (s : string) :
  limpo true s = true -> comeca "_" s = false.
Proof.
  destruct s as [|c r]; [reflexivity|]. cbn [limpo comeca].
  destruct (alnum c) eqn:Ec; [intros _; now apply alnum_not_underscore|].
  rewrite andb_false_r. discriminate.
Qed.

Lemma lstrip_char_id (c : ascii) (s : string) :
  comeca c s = false -> lstrip_char c s = s.
Proof.
  destruct s as [|a r]; [reflexivity|]. cbn [comeca lstrip_char].
  now intros ->.
Qed.

Lemma comeca_lstrip_char (c : ascii) (s : string) :
  comeca c (lstrip_char c s) = false.
Proof.
  induction s as [|a r IH]; [reflexivity|]. cbn [lstrip_char].
  destruct (Ascii.eqb a c) eqn:E; [exact IH|]. cbn [comeca]. exact E.
Qed.

Lemma limpo_lstrip (s : string) :
  limpo false s = true -> limpo false (lstrip_char "_" s) = true.
Proof.
  destruct s as [|a r]; [reflexivity|]. cbn [lstrip_char].
  destruct (Ascii.eqb a "_") eqn:E; [|trivial].
  cbn [limpo]. destruct (alnum a) eqn:Ea.
  - apply alnum_not_underscore in Ea. congruence.
  - rewrite E. cbn [negb andb]. intros Hr.
    rewrite (lstrip_char_id "_" r (limpo_inside r Hr)).
    now apply limpo_weaken.
Qed.

Lemma limpo_rstrip (s : string) :
  forall dentro, limpo dentro s = true ->
                 limpo dentro (rstrip_char "_" s) = true.
Proof.
  induction s as [|a r IH]; intros dentro Hs; [reflexivity|].
  cbn [rstrip_char].
  destruct ((rstrip_char "_" r =? "") && Ascii.eqb a "_"); [reflexivity|].
  cbn [limpo] in *. destruct (alnum a).
  - now apply IH.
  - apply andb_true_iff in Hs. destruct Hs as [Hs Hr]. rewrite Hs.
    now apply IH.
Qed.

Lemma comeca_rstrip_char (c : ascii) (s : string) :
  comeca c s = false -> comeca c (rstrip_char c s) = false.
Proof.
  destruct s as [|a r]; [reflexivity|]. cbn [comeca rstrip_char].
  intros E. rewrite E, andb_false_r. exact E.
Qed.

Lemma rstrip_char_idem (c : ascii) (s : string) :
  rstrip_char c (rstrip_char c s) = rstrip_char c s.
Proof.
  induction s as [|a r IH]; [reflexivity|]. cbn [rstrip_char].
  destruct ((rstrip_char c r =? "") && Ascii.eqb a c) eqn:E; [reflexivity|].
  cbn [rstrip_char]. now rewrite IH, E.
Qed.

Lemma strip_char_idem (c : ascii) (s : string) :
  strip_char c (strip_char c s) = strip_char c s.
Proof.
  unfold strip_char.
  rewrite (lstrip_char_id c (rstrip_char c (lstrip_char c s))).
  - apply rstrip_char_idem.
  - apply comeca_rstrip_char, comeca_lstrip_char.
Qed.

Lemma termina_rstrip_char (c : ascii) (s : string) :
  termina c (rstrip_char c s) = false.
Proof.
  induction s as [|a r IH]; [reflexivity|]. cbn [rstrip_char].
  destruct (String.eqb_spec (rstrip_char c r) "") as [E|E].
  - rewrite E in *. cbn [andb].
    destruct (Ascii.eqb a c) eqn:Ea; [reflexivity|]. cbn. exact Ea.
  - cbn [andb termina].
    destruct (rstrip_char c r) as [|b r'] eqn:Er; [congruence|]. exact IH.
Qed.

Lemma limpo_re_sub_id (s : string) :
  forall dentro, limpo dentro s = true -> re_sub dentro s = s.
Proof.
  induction s as [|c r IH]; intros dentro Hs; [reflexivity|].
  cbn [limpo re_sub] in *. destruct (alnum c).
  - now rewrite IH.
  - apply andb_true_iff in Hs. destruct Hs as [Hs Hr].
    apply andb_true_iff in Hs. destruct Hs as [Hc Hd].
    apply negb_true_iff in Hd. subst dentro.
    apply Ascii.eqb_eq in Hc. subst c. now rewrite IH.
Qed.

Lemma limpo_duplo (s : string) :
  forall dentro, limpo dentro s = true -> duplo "_" s = false.
Proof.
  induction s as [|c r IH]; intros dentro Hs; [reflexivity|].
  cbn [limpo duplo] in *. destruct (alnum c) eqn:Ec.
  - rewrite (alnum_not_underscore c Ec). cbn. now apply (IH false).
  - apply andb_true_iff in Hs. destruct Hs as [_ Hr].
    rewrite (limpo_inside r Hr), andb_false_r. cbn. now apply (IH true).
Qed.

Lemma limpo_slug_chars (s : string) :
  forall dentro, limpo dentro s = true -> todos slug_char (lower s) = true.
Proof.
  induction s as [|c r IH]; intros dentro Hs; [reflexivity|].
  cbn [limpo lower todos] in *. destruct (alnum c) eqn:Ec.
  - rewrite slug_char_lower by (now rewrite Ec). now apply (IH false).
  - apply andb_true_iff in Hs. destruct Hs as [Hs Hr].
    apply andb_true_iff in Hs. destruct Hs as [Hc _].
    rewrite slug_char_lower by (now rewrite Hc, orb_true_r).
    now apply (IH true).
Qed.

Lemma lower_empty (s : string) : (lower s =? "") = (s =? "").
Proof. now destruct s. Qed.

Lemma re_sub_lower (s : string) :
  forall dentro, re_sub dentro (lower s) = lower (re_sub dentro s).
Proof.
  induction s as [|c r IH]; intros dentro; [reflexivity|].
  cbn [lower re_sub]. rewrite alnum_lower_char.
  destruct (alnum c); cbn [lower]; [now rewrite IH|].
  destruct dentro; [apply IH|]. cbn [lower]. now rewrite IH.
Qed.

Lemma lstrip_char_lower (s : string) :
  lstrip_char "_" (lower s) = lower (lstrip_char "_" s).
Proof.
  induction s as [|c r IH]; [reflexivity|].
  cbn [lower lstrip_char]. rewrite lower_char_underscore.
  destruct (Ascii.eqb c "_"); [exact IH|reflexivity].
Qed.

Lemma rstrip_char_lower (s : string) :
  rstrip_char "_" (lower s) = lower (rstrip_char "_" s).
Proof.
  induction s as [|c r IH]; [reflexivity|].
  cbn [lower rstrip_char]. rewrite IH, lower_empty, lower_char_underscore.
  destruct ((rstrip_char "_" r =? "") && Ascii.eqb c "_"); reflexivity.
Qed.

Lemma strip_char_lower (s : string) :
  strip_char "_" (lower s) = lower (strip_char "_" s).
Proof.
  unfold strip_char. now rewrite lstrip_char_lower, rstrip_char_lower.
Qed.

Lemma lower_idem (s : string) : lower (lower s) = lower s.
Proof.
  induction s as [|c r IH]; [reflexivity|].
  cbn [lower]. now rewrite lower_char_idem, IH.
Qed.

Lemma limpo_strip_re_sub (s : string) :
  limpo false (strip_char "_" (re_sub false s)) = true.
Proof.
  unfold strip_char. apply limpo_rstrip, limpo_lstrip, limpo_re_sub.
Qed.

Lemma comeca_lower (s : string) : comeca "_" (lower s) = comeca "_" s.
Proof.
  destruct s as [|c r]; [reflexivity|]. cbn [lower comeca].
  apply lower_char_underscore.
Qed.

Lemma termina_lower (s : string) : termina "_" (lower s) = termina "_" s.
Proof.
  induction s as [|c r IH]; [reflexivity|].
  destruct r as [|d r']; [apply lower_char_underscore|].
  exact IH.
Qed.

Lemma duplo_lower (s : string) : duplo "_" (lower s) = duplo "_" s.
Proof.
  induction s as [|c r IH]; [reflexivity|].
  cbn [lower duplo]. now rewrite lower_char_underscore, comeca_lower, IH.
Qed.

Lemma so_alnum_re_sub (s : string) :
  forall dentro, so_alnum (re_sub dentro s) = so_alnum s.
Proof.
  induction s as [|c r IH]; intros dentro; [reflexivity|].
  cbn [re_sub so_alnum]. destruct (alnum c) eqn:Ec.
  - cbn [so_alnum]. now rewrite Ec, IH.
  - destruct dentro; [apply IH|]. cbn [so_alnum].
    change (alnum "_") with false. cbn. apply IH.
Qed.

Lemma so_alnum_lstrip (s : string) :
  so_alnum (lstrip_char "_" s) = so_alnum s.
Proof.
  induction s as [|c r IH]; [reflexivity|]. cbn [lstrip_char].
  destruct (Ascii.eqb c "_") eqn:E; [|reflexivity].
  apply Ascii.eqb_eq in E. subst c. cbn [so_alnum].
  change (alnum "_") with false. cbn. exact IH.
Qed.

Lemma so_alnum_rstrip (s : string) :
  so_alnum (rstrip_char "_" s) = so_alnum s.
Proof.
  induction s as [|c r IH]; [reflexivity|]. cbn [rstrip_char].
  destruct (String.eqb_spec (rstrip_char "_" r) "") as [E|E].
  - cbn [andb]. destruct (Ascii.eqb c "_") eqn:Ec.
    + apply Ascii.eqb_eq in Ec. subst c. cbn [so_alnum].
      change (alnum "_") with false. cbn. now rewrite <- IH, E.
    + cbn [so_alnum]. now rewrite IH.
  - cbn [andb so_alnum]. now rewrite IH.
Qed.

Lemma so_alnum_lower (s : string) : so_alnum (lower s) = lower (so_alnum s).
Proof.
  induction s as [|c r IH]; [reflexivity|].
  cbn [lower so_alnum]. rewrite alnum_lower_char.
  destruct (alnum c); cbn [lower]; now rewrite IH.
Qed.

Lemma so_alnum_slug_body (s : string) :
  so_alnum (lower (strip_char "_" (re_sub false s))) = lower (so_alnum s).
Proof.
  unfold strip_char.
  now rewrite so_alnum_lower, so_alnum_rstrip, so_alnum_lstrip, so_alnum_re_sub.
Qed.

(** A clean text that neither begins with an underscore nor holds a letter
    or digit is empty. *)
Lemma limpo_sem_alnum (s : string) :
  limpo false s = true -> comeca "_" s = false -> so_alnum s = "" -> s = "".
Proof.
  destruct s as [|c r]; [reflexivity|]. cbn [limpo comeca so_alnum].
  destruct (alnum c); [discriminate|].
  intros Hs Hc. now rewrite Hc in Hs.
Qed.

Lemma slugificar_safe_chars_aux (nome_aba : string) :
  todos slug_char (slugificar nome_aba) = true.
Proof.
  unfold slugificar.
  destruct (String.eqb_spec (lower (strip_char "_" (re_sub false nome_aba))) "")
    as [E|E]; [reflexivity|].
  apply (limpo_slug_chars _ false), limpo_strip_re_sub.
Qed.

(** [slugificar] gives a name made of small letters, digits and
    underscores, and never the empty name. *)
Theorem slugificar_safe_characters (nome_aba : string) :
  todos slug_char (slugificar nome_aba) = true /\ slugificar nome_aba <> "".
Proof.
  unfold slugificar.
  destruct (String.eqb_spec (lower (strip_char "_" (re_sub false nome_aba))) "")
    as [E|E].
  - split; [reflexivity|discriminate].
  - split; [|exact E].
    apply (limpo_slug_chars _ false), limpo_strip_re_sub.
Qed.

(** [slugificar] keeps the letters and digits of the sheet name, in their
    order and in small letters, and nothing else but underscores; a name
    without any letter or digit gives "aba". *)
Theorem slugificar_keeps_letters_and_digits (nome_aba : string) :
  (so_alnum nome_aba = "" -> slugificar nome_aba = "aba") /\
  (so_alnum nome_aba <> "" ->
   so_alnum (slugificar nome_aba) = lower (so_alnum nome_aba)).
Proof.
  unfold slugificar.
  pose proof (so_alnum_slug_body nome_aba) as Hbody.
  set (t := strip_char "_" (re_sub false nome_aba)) in *.
  split; intros Hs.
  - rewrite Hs in Hbody. cbn [lower] in Hbody. rewrite so_alnum_lower in Hbody.
    assert (so_alnum t = "") as Ht by (now destruct (so_alnum t)).
    assert (t = "") as ->.
    { apply limpo_sem_alnum; [apply limpo_strip_re_sub| |exact Ht].
      apply comeca_rstrip_char, comeca_lstrip_char. }
    reflexivity.
  - destruct (String.eqb_spec (lower t) "") as [E|E]; [|exact Hbody].
    rewrite E in Hbody. cbn [so_alnum] in Hbody.
    destruct (so_alnum nome_aba); [congruence|discriminate].
Qed.

Lemma slugificar_keeps_witness :
  so_alnum "Sheet 19" <> "" /\
  so_alnum (slugificar "Sheet 19") = lower (so_alnum "Sheet 19").
Proof.
  split; [discriminate|].
  apply (proj2 (slugificar_keeps_letters_and_digits "Sheet 19")).
  discriminate.
Defined.

(** The name that [slugificar] gives neither begins nor ends with an
    underscore and never holds two underscores in a row. *)
Theorem slugificar_single_inner_underscores (nome_aba : string) :
  comeca "_" (slugificar nome_aba) = false /\
  termina "_" (slugificar nome_aba) = false /\
  duplo "_" (slugificar nome_aba) = false.
Proof.
  unfold slugificar.
  destruct (String.eqb_spec (lower (strip_char "_" (re_sub false nome_aba))) "")
    as [E|E]; [repeat split|].
  rewrite comeca_lower, termina_lower, duplo_lower.
  split; [|split].
  - apply comeca_rstrip_char, comeca_lstrip_char.
  - apply termina_rstrip_char.
  - apply (limpo_duplo _ false), limpo_strip_re_sub.
Qed.

(** A name that [slugificar] gave is left as it is by [slugificar]. *)
Theorem slugificar_idempotent (nome_aba : string) :
  slugificar (slugificar nome_aba) = slugificar nome_aba.
Proof.
  set (t := strip_char "_" (re_sub false nome_aba)).
  assert (slugificar nome_aba = if lower t =? "" then "aba" else lower t)
    as Hs by reflexivity.
  rewrite Hs.
  destruct (String.eqb_spec (lower t) "") as [E|E]; [reflexivity|].
  unfold slugificar.
  assert (lower (strip_char "_" (re_sub false (lower t))) = lower t) as Hfix.
  { rewrite re_sub_lower, strip_char_lower, lower_idem.
    rewrite (limpo_re_sub_id t false) by apply limpo_strip_re_sub.
    unfold t. now rewrite strip_char_idem. }
  rewrite Hfix.
  destruct (String.eqb_spec (lower t) ""); [contradiction|reflexivity].
Qed.

(** ** The typed list of entities *)

Lemma contem_append (c : ascii) (a b : string) :
  contem c (a ++ b) = contem c a || contem c b.
Proof.
  induction a as [|x a IH]; [reflexivity|].
  cbn [String.append contem]. now rewrite IH, orb_assoc.
Qed.

Lemma split_not_nil (sep : ascii) (s : string) : split sep s <> [].
Proof.
  destruct s as [|c r]; [discriminate|]. cbn [split].
  destruct (Ascii.eqb c sep); [discriminate|].
  destruct (split sep r); discriminate.
Qed.

(** A piece holds no separator, and no character that the text lacks. *)
Lemma split_pieces (sep : ascii) (s : string) (p : string) :
  In p (split sep s) ->
  contem sep p = false /\ (forall c, contem c s = false -> contem c p = false).
Proof.
  revert p. induction s as [|a r IH]; intros p Hp.
  - destruct Hp as [<-|[]]. split; [reflexivity|trivial].
  - cbn [split] in Hp. destruct (Ascii.eqb a sep) eqn:Ea.
    + destruct Hp as [<-|Hp]; [split; [reflexivity|trivial]|].
      destruct (IH p Hp) as [H1 H2]. split; [assumption|].
      intros c Hc. cbn [contem] in Hc. apply orb_false_iff in Hc.
      now apply H2.
    + destruct (split sep r) as [|q qs] eqn:Es;
        [now apply split_not_nil in Es|].
      destruct Hp as [<-|Hp].
      * destruct (IH q (or_introl eq_refl)) as [H1 H2].
        split; [cbn [contem]; now rewrite Ea, H1|].
        intros c Hc. cbn [contem] in *. apply orb_false_iff in Hc.
        destruct Hc as [Hc1 Hc2]. now rewrite Hc1, (H2 c Hc2).
      * destruct (IH p (or_intror Hp)) as [H1 H2]. split; [assumption|].
        intros c Hc. cbn [contem] in Hc. apply orb_false_iff in Hc.
        now apply H2.
Qed.

(** An empty line gives the default list; any other line gives names that
    are not empty. *)
Theorem solicitar_lista_paises_nonempty_names `{PyStrip}
    (padrao : list string) (linha : string) :
  (strip linha = "" -> solicitar_lista_paises padrao linha = padrao) /\
  (strip linha <> "" ->
   Forall (fun nome => nome <> "") (solicitar_lista_paises padrao linha)).
Proof.
  unfold solicitar_lista_paises. split; intros Hl.
  - now rewrite Hl.
  - destruct (String.eqb_spec (strip linha) ""); [contradiction|].
    apply Forall_forall. intros nome Hn. apply in_map_iff in Hn.
    destruct Hn as [parte [<- Hp]]. apply filter_In in Hp.
    destruct Hp as [_ Hp]. apply negb_true_iff in Hp.
    now apply String.eqb_neq.
Qed.

Lemma solicitar_lista_paises_nonempty_witness :
  @strip PyStrip_amostra " Germany ; ; France, Metropolitan " <> "" /\
  Forall (fun nome => nome <> "")
         (@solicitar_lista_paises PyStrip_amostra ["Spain"]
            " Germany ; ; France, Metropolitan ").
Proof.
  split; [discriminate|].
  apply (proj2 (@solicitar_lista_paises_nonempty_names PyStrip_amostra
                  ["Spain"] " Germany ; ; France, Metropolitan ")).
  discriminate.
Defined.

(** When [strip] only removes characters at the two ends, no name of the
    list read from a line holds a semicolon, and none holds a comma unless
    the line holds a semicolon: the comma separates only in lines without
    semicolon. *)
Theorem solicitar_lista_paises_separator_free `{PyStrip}
    (padrao : list string) (linha : string) (nome : string) :
  (forall s, exists a b, s = (a ++ strip s ++ b)%string) ->
  strip linha <> "" ->
  In nome (solicitar_lista_paises padrao linha) ->
  contem ";" nome = false /\
  (contem ";" (strip linha) = false -> contem "," nome = false).
Proof.
  intros Hstrip Hl Hn. unfold solicitar_lista_paises in Hn.
  destruct (String.eqb_spec (strip linha) ""); [contradiction|].
  apply in_map_iff in Hn. destruct Hn as [parte [<- Hp]].
  apply filter_In in Hp. destruct Hp as [Hp _].
  apply split_pieces in Hp. destruct Hp as [Hsep Hsub].
  assert (forall c, contem c parte = false -> contem c (strip parte) = false)
    as Hin.
  { intros c Hc. destruct (Hstrip parte) as [a [b E]].
    rewrite E, !contem_append in Hc.
    apply orb_false_iff in Hc. destruct Hc as [_ Hc].
    now apply orb_false_iff in Hc. }
  destruct (contem ";" (strip linha)) eqn:Esc.
  - split; [now apply Hin|discriminate].
  - split; [now apply Hin, Hsub|]. intros _. now apply Hin.
Qed.

Lemma lstrip_char_sub (c : ascii) (s : string) :
  exists a, s = (a ++ lstrip_char c s)%string.
Proof.
  induction s as [|x r [a IH]]; [now exists ""|]. cbn [lstrip_char].
  destruct (Ascii.eqb x c).
  - exists (String x a). cbn [String.append]. now rewrite <- IH.
  - now exists "".
Qed.

Lemma append_nil_r (s : string) : (s ++ "")%string = s.
Proof. induction s as [|c r IH]; [reflexivity|]. cbn. now rewrite IH. Qed.

Lemma rstrip_char_sub (c : ascii) (s : string) :
  exists b, s = (rstrip_char c s ++ b)%string.
Proof.
  induction s as [|x r [b IH]]; [now exists ""|]. cbn [rstrip_char].
  destruct ((rstrip_char c r =? "") && Ascii.eqb x c).
  - now exists (String x r).
  - exists b. cbn [String.append]. now rewrite <- IH.
Qed.

Lemma append_assoc (a b c : string) :
  ((a ++ b) ++ c)%string = (a ++ (b ++ c))%string.
Proof. induction a as [|x a IH]; [reflexivity|]. cbn. now rewrite IH. Qed.

Lemma strip_char_sub (c : ascii) (s : string) :
  exists a b, s = (a ++ strip_char c s ++ b)%string.
Proof.
  unfold strip_char.
  destruct (lstrip_char_sub c s) as [a Ha].
  destruct (rstrip_char_sub c (lstrip_char c s)) as [b Hb].
  exists a, b. now rewrite <- Hb.
Qed.

Lemma solicitar_lista_paises_separator_witness :
  ((forall s, exists a b, s = (a ++ @strip PyStrip_amostra s ++ b)%string) /\
   @strip PyStrip_amostra " Germany ; ; France, Metropolitan " <> "" /\
   In "France, Metropolitan"
      (@solicitar_lista_paises PyStrip_amostra ["Spain"]
         " Germany ; ; France, Metropolitan ")) /\
  contem ";" "France, Metropolitan" = false /\
  (contem ";" (@strip PyStrip_amostra " Germany ; ; France, Metropolitan ")
   = false ->
   contem "," "France, Metropolitan" = false).
Proof.
  split.
  - split; [exact (strip_char_sub " ")|].
    split; [discriminate|right; left; reflexivity].
  - apply (@solicitar_lista_paises_separator_free PyStrip_amostra ["Spain"]
             " Germany ; ; France, Metropolitan " "France, Metropolitan"
             (strip_char_sub " ")).
    + discriminate.
    + right; left; reflexivity.
Defined.

Lemma split_sem_separador (sep : ascii) (n : string) :
  contem sep n = false -> split sep n = [n].
Proof.
  induction n as [|a r IH]; [reflexivity|]. cbn [contem split].
  intros E. apply orb_false_iff in E. destruct E as [Ea Er].
  now rewrite Ea, (IH Er).
Qed.

Lemma split_append_separador (sep : ascii) (n s : string) :
  contem sep n = false ->
  split sep (n ++ String sep s) = n :: split sep s.
Proof.
  induction n as [|a r IH]; intros E.
  - cbn [String.append split]. now rewrite Ascii.eqb_refl.
  - cbn [contem] in E. apply orb_false_iff in E. destruct E as [Ea Er].
    cbn [String.append split]. now rewrite Ea, (IH Er).
Qed.

Lemma split_intercalar (sep : ascii) (nomes : list string) :
  nomes <> [] ->
  Forall (fun n => contem sep n = false) nomes ->
  split sep (intercalar sep nomes) = nomes.
Proof.
  induction nomes as [|n r IH]; intros Hne Hall; [congruence|].
  inversion Hall as [|? ? Hn Hr]; subst.
  destruct r as [|m r'].
  - now apply split_sem_separador.
  - change (intercalar sep (n :: m :: r'))
      with (n ++ String sep (intercalar sep (m :: r')))%string.
    rewrite (split_append_separador sep n _ Hn), IH; [reflexivity|discriminate|assumption].
Qed.

Lemma contem_intercalar (c sep : ascii) (nomes : list string) :
  Ascii.eqb sep c = false ->
  Forall (fun n => contem c n = false) nomes ->
  contem c (intercalar sep nomes) = false.
Proof.
  intros Hsep. induction nomes as [|n r IH]; intros Hall; [reflexivity|].
  inversion Hall as [|? ? Hn Hr]; subst.
  destruct r as [|m r']; [exact Hn|].
  change (intercalar sep (n :: m :: r'))
    with (n ++ String sep (intercalar sep (m :: r')))%string.
  rewrite contem_append, Hn. cbn [contem orb]. rewrite Hsep. now apply IH.
Qed.

(** Round trip of the prompt: names that are not empty, that [strip] leaves
    as they are and that hold neither comma nor semicolon are read back, in
    their order, from the line that joins them with commas. *)
Theorem solicitar_lista_paises_reads_back_joined_names `{PyStrip}
    (padrao nomes : list string) :
  nomes <> [] ->
  Forall (fun n => n <> "" /\ strip n = n /\
                   contem "," n = false /\ contem ";" n = false) nomes ->
  strip (intercalar "," nomes) = intercalar "," nomes ->
  solicitar_lista_paises padrao (intercalar "," nomes) = nomes.
Proof.
  intros Hne Hall Hline. unfold solicitar_lista_paises. rewrite Hline.
  assert (intercalar "," nomes <> "") as Hnonempty.
  { destruct nomes as [|n r]; [congruence|].
    inversion Hall as [|? ? [Hn _] _]; subst.
    destruct r; [exact Hn|]. destruct n; [congruence|discriminate]. }
  destruct (String.eqb_spec (intercalar "," nomes) "") as [E|_];
    [contradiction|].
  rewrite (contem_intercalar ";" "," nomes eq_refl).
  2:{ eapply Forall_impl; [|exact Hall]. intros x Hx. apply Hx. }
  rewrite split_intercalar; [|assumption|].
  2:{ eapply Forall_impl; [|exact Hall]. intros x Hx. apply Hx. }
  clear Hne Hline Hnonempty.
  induction nomes as [|n r IH]; [reflexivity|].
  inversion Hall as [|? ? [Hn [Hs _]] Hr]; subst.
  cbn [filter]. rewrite Hs.
  destruct (String.eqb_spec n ""); [contradiction|].
  cbn [negb map]. now rewrite Hs, (IH Hr).
Qed.

Lemma solicitar_lista_paises_reads_back_witness :
  (["Germany"; "Euro area - 20 countries (from 2023)"] <> [] /\
   Forall (fun n => n <> "" /\ @strip PyStrip_amostra n = n /\
                    contem "," n = false /\ contem ";" n = false)
          ["Germany"; "Euro area - 20 countries (from 2023)"] /\
   @strip PyStrip_amostra
     (intercalar "," ["Germany"; "Euro area - 20 countries (from 2023)"])
   = intercalar "," ["Germany"; "Euro area - 20 countries (from 2023)"]) /\
  @solicitar_lista_paises PyStrip_amostra ["Spain"]
    (intercalar "," ["Germany"; "Euro area - 20 countries (from 2023)"])
  = ["Germany"; "Euro area - 20 countries (from 2023)"].
Proof.
  assert (Forall (fun n => n <> "" /\ @strip PyStrip_amostra n = n /\
                           contem "," n = false /\ contem ";" n = false)
                 ["Germany"; "Euro area - 20 countries (from 2023)"]) as Hall.
  { repeat constructor; discriminate. }
  split.
  - split; [discriminate|]. split; [exact Hall|reflexivity].
  - apply (@solicitar_lista_paises_reads_back_joined_names PyStrip_amostra
             ["Spain"] ["Germany"; "Euro area - 20 countries (from 2023)"]);
      [discriminate|exact Hall|reflexivity].
Defined.

(** ** More on the loader *)

(** Every row of the tidy table comes from a data row that carries an
    identifier and from a value column: its entity is the identifier, the
    missing marker standing for an identifier ":" (never the text ":"
    itself), its quarter is the label of the column and its value is what
    [to_numeric] reads in the cell. *)
Theorem carregar_tabela_vagas_record_origin `{FloatText}
    (bruto : RawGrid) (h d : Z) (t : TidyFrame) (ordem : list string)
    (area : option string) (cab : list Cell) (r : TidyRecord) :
  carregar_tabela_vagas bruto h d = Ok (t, ordem, area) ->
  iloc bruto h = Ok cab ->
  In r (registros t) ->
  exists linha j,
    In linha (iloc_from bruto d) /\
    isna (celula linha 0) = false /\
    1 <= j /\
    nth_error (montar_nomes_colunas cab) j = Some (trimestre r) /\
    In (trimestre r) ordem /\
    geo r = substituir (celula linha 0) /\
    geo r <> CStr ":" /\
    taxa_vaga r = to_numeric (substituir (celula linha j)).
Proof.
  intros Hok Hcab Hr.
  destruct (carregar_tabela_vagas_ok _ _ _ _ _ _ Hok)
    as [cab' [Hcab' [_ [_ [_ [Hordem [_ Hregs]]]]]]].
  assert (cab' = cab) by congruence. subst cab'.
  rewrite Hregs in Hr. apply in_flat_map in Hr.
  destruct Hr as [[j col] [Hjc Hr]].
  unfold bloco in Hr. apply filter_In in Hr. destruct Hr as [Hr _].
  apply in_map_iff in Hr. destruct Hr as [linha [<- Hlinha]].
  apply filter_In in Hlinha. destruct Hlinha as [Hlinha Hgeo].
  pose proof Hjc as Hjc'. apply posicoes_de_valor_In in Hjc'.
  destruct Hjc' as [Hj Hval].
  exists linha, j. cbn [registro_de geo trimestre taxa_vaga fst snd].
  repeat split.
  - assumption.
  - unfold notna in Hgeo. now apply negb_true_iff in Hgeo.
  - destruct j as [|j]; [|lia].
    destruct cab as [|c0 r0]; [discriminate Hj|].
    rewrite montar_nomes_colunas_cons in Hj. cbn in Hj.
    inversion Hj; subst. discriminate Hval.
  - assumption.
  - rewrite Hordem, <- posicoes_de_valor_labels.
    apply (in_map snd _ _ Hjc).
  - destruct (celula linha 0) as [f|s|]; cbn; try discriminate.
    destruct (String.eqb_spec s ":") as [->|Hs]; [discriminate|].
    intros E. now inversion E.
Qed.

Lemma carregar_tabela_vagas_record_origin_witness :
  (@carregar_tabela_vagas FloatText_amostra folha_amostra 0 1
   = Ok (tabela_amostra, ["2022-Q1"; "2022-Q2"], None) /\
   iloc folha_amostra 0
   = Ok [CStr "TIME"; CStr "2022-Q1"; NaN; CStr "2022-Q2"; NaN] /\
   In {| geo := CStr "France"; trimestre := "2022-Q2";
         taxa_vaga := S754_finite false 11 (-2) |}
      (registros tabela_amostra)) /\
  exists linha j,
    In linha (iloc_from folha_amostra 1) /\
    isna (celula linha 0) = false /\
    1 <= j /\
    nth_error (@montar_nomes_colunas FloatText_amostra
                 [CStr "TIME"; CStr "2022-Q1"; NaN; CStr "2022-Q2"; NaN]) j
    = Some "2022-Q2" /\
    In "2022-Q2" ["2022-Q1"; "2022-Q2"] /\
    CStr "France" = substituir (celula linha 0) /\
    CStr "France" <> CStr ":" /\
    S754_finite false 11 (-2)
    = @to_numeric FloatText_amostra (substituir (celula linha j)).
Proof.
  split.
  - split; [reflexivity|]. split; [reflexivity|].
    right; right; left; reflexivity.
  - exact (@carregar_tabela_vagas_record_origin FloatText_amostra
             folha_amostra 0 1 tabela_amostra ["2022-Q1"; "2022-Q2"] None
             [CStr "TIME"; CStr "2022-Q1"; NaN; CStr "2022-Q2"; NaN]
             {| geo := CStr "France"; trimestre := "2022-Q2";
                taxa_vaga := S754_finite false 11 (-2) |}
             eq_refl eq_refl (or_intror (or_intror (or_introl eq_refl)))).
Defined.

(** The table that the loader returns is a sound Categorical: its
    categories are the period order, they are pairwise distinct, and the
    quarter of every row is one of them. *)
Theorem carregar_tabela_vagas_categories_sound `{FloatText}
    (bruto : RawGrid) (h d : Z) (t : TidyFrame) (ordem : list string)
    (area : option string) :
  carregar_tabela_vagas bruto h d = Ok (t, ordem, area) ->
  categorias t = ordem /\
  NoDup ordem /\
  (forall r, In r (registros t) -> In (trimestre r) (categorias t)).
Proof.
  intros Hok.
  destruct (carregar_tabela_vagas_ok _ _ _ _ _ _ Hok)
    as [cab [_ [_ [_ [Hnd [Hordem [Hcat _]]]]]]].
  split; [assumption|]. split; [now rewrite Hordem|].
  intros r Hr. rewrite Hcat. eapply registros_trimestre; eassumption.
Qed.

Lemma carregar_tabela_vagas_categories_witness :
  @carregar_tabela_vagas FloatText_amostra folha_amostra 0 1
  = Ok (tabela_amostra, ["2022-Q1"; "2022-Q2"], None) /\
  categorias tabela_amostra = ["2022-Q1"; "2022-Q2"] /\
  NoDup ["2022-Q1"; "2022-Q2"] /\
  (forall r, In r (registros tabela_amostra) ->
             In (trimestre r) (categorias tabela_amostra)).
Proof.
  split; [reflexivity|].
  exact (@carregar_tabela_vagas_categories_sound FloatText_amostra
           folha_amostra 0 1 tabela_amostra ["2022-Q1"; "2022-Q2"] None
           eq_refl).
Defined.

(** [load_sheet19_table] raises IndexError exactly on a sheet of fewer than
    eleven rows, where row 10 does not exist. *)
Theorem load_sheet19_table_needs_eleven_rows `{FloatText} (raw : RawGrid) :
  load_sheet19_table raw = Raise IndexError <-> List.length raw <= 10.
Proof.
  split.
  - intros Hraise.
    destruct (Nat.le_gt_cases (List.length raw) 10) as [Hle|Hgt]; [assumption|].
    exfalso. unfold load_sheet19_table in Hraise.
    destruct (iloc_in_range raw 10 ltac:(lia)) as [cab Hcab].
    rewrite Hcab in Hraise. cbn [bind] in Hraise.
    unfold filtrar_notna in Hraise.
    destruct (posicoes _ "geo") as [|j [|j' l]]; try discriminate.
    cbn [bind] in Hraise. unfold melt in Hraise.
    destruct (existsb (String.eqb "vacancy_rate") _); [discriminate|].
    cbn [bind] in Hraise. unfold Categorical in Hraise.
    destruct (unique _); discriminate.
  - intros Hle. unfold load_sheet19_table.
    rewrite (iloc_out_of_range raw 10) by lia. reflexivity.
Qed.

Lemma load_sheet19_table_needs_eleven_rows_witness :
  List.length folha_amostra <= 10 /\
  @load_sheet19_table FloatText_amostra folha_amostra = Raise IndexError.
Proof.
  split; [simpl; lia|].
  apply (proj2 (@load_sheet19_table_needs_eleven_rows FloatText_amostra
                  folha_amostra)).
  simpl; lia.
Defined.

(** A column after the first whose header cell is empty is labelled with
    the label before it followed by "_flag"; it is left out of the period
    order and no row of the tidy table bears its label. *)
Theorem carregar_tabela_vagas_skips_unnamed_columns `{FloatText}
    (bruto : RawGrid) (h d : Z) (t : TidyFrame) (ordem : list string)
    (area : option string) (cab : list Cell) (j : nat) (c : Cell) :
  carregar_tabela_vagas bruto h d = Ok (t, ordem, area) ->
  iloc bruto h = Ok cab ->
  1 <= j ->
  nth_error cab j = Some c ->
  isna c = true ->
  exists rotulo,
    nth_error (montar_nomes_colunas cab) j = Some rotulo /\
    rotulo = (nth (j - 1) (montar_nomes_colunas cab) "" ++ "_flag")%string /\
    ~ In rotulo ordem /\
    (forall r, In r (registros t) -> trimestre r <> rotulo).
Proof.
  intros Hok Hcab Hj Hc Hna.
  assert (j < List.length cab) as Hlt by (apply nth_error_Some; congruence).
  pose proof (montar_nomes_colunas_nth cab j Hlt) as Hlabel.
  destruct j as [|j]; [lia|]. cbn [Nat.eqb] in Hlabel.
  rewrite (nth_error_nth _ _ NaN Hc), Hna in Hlabel.
  eexists. split; [exact Hlabel|]. split; [reflexivity|].
  assert (~ In (nth (S j - 1) (montar_nomes_colunas cab) "" ++ "_flag")%string
            ordem) as Hout.
  { destruct (carregar_tabela_vagas_ok _ _ _ _ _ _ Hok)
      as [cab' [_ [_ [_ [_ [-> _]]]]]].
    unfold colunas_de_valor, coluna_de_valor.
    rewrite filter_In, endswith_append.
    intros [_ E]. now rewrite andb_false_r in E. }
  split; [exact Hout|].
  intros r Hr E. apply Hout. rewrite <- E.
  eapply registros_trimestre; eassumption.
Qed.

Lemma carregar_tabela_vagas_skips_unnamed_witness :
  (@carregar_tabela_vagas FloatText_amostra folha_amostra 0 1
   = Ok (tabela_amostra, ["2022-Q1"; "2022-Q2"], None) /\
   iloc folha_amostra 0
   = Ok [CStr "TIME"; CStr "2022-Q1"; NaN; CStr "2022-Q2"; NaN] /\
   1 <= 2 /\
   nth_error [CStr "TIME"; CStr "2022-Q1"; NaN; CStr "2022-Q2"; NaN] 2
   = Some NaN /\
   isna NaN = true) /\
  exists rotulo,
    nth_error (@montar_nomes_colunas FloatText_amostra
                 [CStr "TIME"; CStr "2022-Q1"; NaN; CStr "2022-Q2"; NaN]) 2
    = Some rotulo /\
    rotulo
    = (nth (2 - 1)
           (@montar_nomes_colunas FloatText_amostra
              [CStr "TIME"; CStr "2022-Q1"; NaN; CStr "2022-Q2"; NaN]) ""
         ++ "_flag")%string /\
    ~ In rotulo ["2022-Q1"; "2022-Q2"] /\
    (forall r, In r (registros tabela_amostra) -> trimestre r <> rotulo).
Proof.
  split.
  - repeat split; solve [reflexivity | lia].
  - apply (@carregar_tabela_vagas_skips_unnamed_columns FloatText_amostra
             folha_amostra 0 1 tabela_amostra ["2022-Q1"; "2022-Q2"] None
             [CStr "TIME"; CStr "2022-Q1"; NaN; CStr "2022-Q2"; NaN] 2 NaN);
      solve [reflexivity | lia].
Defined.

Lemma flat_map_length_le {A B : Type} (F : A -> list B) (l : list A) (k : nat) :
  (forall a, In a l -> List.length (F a) <= k) ->
  List.length (flat_map F l) <= List.length l * k.
Proof.
  induction l as [|a l IH]; intros HF; [simpl; lia|].
  cbn [flat_map List.length]. rewrite length_app.
  pose proof (HF a (or_introl eq_refl)).
  assert (List.length (flat_map F l) <= List.length l * k)
    by (apply IH; intros b Hb; apply HF; now right).
  lia.
Qed.

(** The tidy table has at most one row per value column and data row with
    an identifier. *)
Theorem carregar_tabela_vagas_size_bound `{FloatText}
    (bruto : RawGrid) (h d : Z) (t : TidyFrame) (ordem : list string)
    (area : option string) :
  carregar_tabela_vagas bruto h d = Ok (t, ordem, area) ->
  List.length (registros t)
  <= List.length ordem * List.length (linhas_com_geo (iloc_from bruto d)).
Proof.
  intros Hok.
  destruct (carregar_tabela_vagas_ok _ _ _ _ _ _ Hok)
    as [cab [_ [_ [_ [_ [Hordem [_ Hregs]]]]]]].
  rewrite Hregs, Hordem, <- posicoes_de_valor_labels, length_map.
  apply flat_map_length_le. intros jc _. unfold bloco.
  etransitivity; [apply filter_length_le|]. now rewrite length_map.
Qed.

Lemma carregar_tabela_vagas_size_bound_witness :
  @carregar_tabela_vagas FloatText_amostra folha_amostra 0 1
  = Ok (tabela_amostra, ["2022-Q1"; "2022-Q2"], None) /\
  List.length (registros tabela_amostra)
  <= List.length ["2022-Q1"; "2022-Q2"]
     * List.length (linhas_com_geo (iloc_from folha_amostra 1)).
Proof.
  split; [reflexivity|].
  exact (@carregar_tabela_vagas_size_bound FloatText_amostra folha_amostra 0 1
           tabela_amostra ["2022-Q1"; "2022-Q2"] None eq_refl).
Defined.

Lemma iloc_nat {A : Type} (l : list A) (k : nat) :
  iloc l (Z.of_nat k)
  = match nth_error l k with Some a => Ok a | None => Raise IndexError end.
Proof.
  unfold iloc.
  destruct (Z.ltb_spec (Z.of_nat k) 0) as [Hneg|_]; [lia|].
  rewrite Nat2Z.id.
  destruct (nth_error l k) as [a|] eqn:E.
  - assert (k < List.length l) by (apply nth_error_Some; congruence).
    replace ((0 <=? Z.of_nat k)%Z && (Z.of_nat k <? Z.of_nat (List.length l))%Z)
      with true; [reflexivity|].
    symmetry. apply andb_true_iff. split; [apply Z.leb_le|apply Z.ltb_lt]; lia.
  - now destruct (_ && _).
Qed.

(** The area text is read without ever failing: it is the text of the cell
    of row 6 and column 2 when the sheet has that cell and the cell is not
    empty, and it is absent otherwise, also on a sheet too short or too
    narrow to have the cell. *)
Theorem ler_area_trabalho_total `{FloatText} (bruto : RawGrid) (area : string) :
  ler_area_trabalho bruto = Some area <->
  exists linha c,
    nth_error bruto 6 = Some linha /\
    nth_error linha 2 = Some c /\
    isna c = false /\
    area = str c.
Proof.
  unfold ler_area_trabalho, iloc2.
  change 6%Z with (Z.of_nat 6). change 2%Z with (Z.of_nat 2).
  rewrite iloc_nat.
  destruct (nth_error bruto 6) as [linha|] eqn:El; cbn [bind].
  - rewrite iloc_nat.
    destruct (nth_error linha 2) as [c|] eqn:Ec.
    + unfold notna. destruct (isna c) eqn:Hna; cbn [negb].
      * split; [discriminate|].
        intros [l' [c' [E1 [E2 [E3 _]]]]]. congruence.
      * split.
        -- intros E. inversion E. now exists linha, c.
        -- intros [l' [c' [E1 [E2 [_ ->]]]]]. congruence.
    + split; [discriminate|].
      intros [l' [c' [E1 [E2 _]]]]. congruence.
  - split; [discriminate|].
    intros [l' [c' [E1 _]]]. discriminate.
Qed.

Lemma ler_area_trabalho_total_witness :
  (exists linha c,
      nth_error folha_com_area 6 = Some linha /\
      nth_error linha 2 = Some c /\
      isna c = false /\
      "Industry, construction and services" = @str FloatText_amostra c) /\
  @ler_area_trabalho FloatText_amostra folha_com_area
  = Some "Industry, construction and services".
Proof.
  assert (exists linha c,
             nth_error folha_com_area 6 = Some linha /\
             nth_error linha 2 = Some c /\
             isna c = false /\
             "Industry, construction and services"
             = @str FloatText_amostra c) as Hcell.
  { eexists. eexists. repeat split. }
  split; [exact Hcell|].
  exact (proj2 (@ler_area_trabalho_total FloatText_amostra folha_com_area
                  "Industry, construction and services") Hcell).
Defined.

(** ** More on the chart *)

Lemma leb_false_true (a b : string) :
  String.leb a b = false -> String.leb b a = true.
Proof.
  intros E. destruct (String.leb_total a b) as [H|H]; congruence.
Qed.

Lemma leb_trans (a b c : string) :
  String.leb a b = true -> String.leb b c = true -> String.leb a c = true.
Proof.
  unfold String.leb.
  destruct (String.compare a b) eqn:Eab; try discriminate;
    destruct (String.compare b c) eqn:Ebc; try discriminate; intros _ _.
  - apply String.compare_eq_iff in Eab, Ebc. subst.
    now rewrite compare_refl.
  - apply String.compare_eq_iff in Eab. subst. now rewrite Ebc.
  - apply String.compare_eq_iff in Ebc. subst. now rewrite Eab.
  - now rewrite (compare_lt_trans _ _ _ Eab Ebc).
Qed.

Lemma desenhar_labels (categories : list string) (l : list TidyRecord) :
  map label (desenhar categories l)
  = ordenar String.leb (nodup string_dec (map (fun r => texto (geo r)) l)).
Proof.
  unfold desenhar, groupby. rewrite !map_map. cbn [label fst].
  apply map_id.
Qed.

(** The labels of the series drawn for the rows of the requested entities:
    without repetition, in increasing order, and exactly the requested
    entities that some row of the table carries. *)
Lemma desenhar_labels_spec (t : TidyFrame) (paises : list string) :
  let rotulos :=
    map label
        (desenhar (categorias t)
           (sort_values (categorias t)
              (filter (fun r => isin paises (geo r)) (registros t)))) in
  NoDup rotulos /\
  StronglySorted (fun a b => String.leb a b = true) rotulos /\
  (forall g, In g rotulos <->
             In g paises /\ exists r, In r (registros t) /\ geo r = CStr g).
Proof.
  cbv zeta. rewrite desenhar_labels.
  set (recorte := filter (fun r => isin paises (geo r)) (registros t)).
  set (chaves := nodup string_dec
                   (map (fun r => texto (geo r))
                        (sort_values (categorias t) recorte))).
  split; [|split].
  - apply (Permutation_NoDup (Permutation_sym (ordenar_perm _ String.leb chaves))).
    apply NoDup_nodup.
  - apply ordenar_sorted; [apply leb_false_true|apply leb_trans].
  - intros g. split.
    + intros Hg. apply (Permutation_in _ (ordenar_perm _ String.leb chaves)) in Hg.
      apply nodup_In, in_map_iff in Hg. destruct Hg as [r [Er Hr]].
      apply (Permutation_in _ (sort_values_perm _ recorte)) in Hr.
      apply filter_In in Hr. destruct Hr as [Hr Hin].
      apply isin_true in Hin. destruct Hin as [s [Es Hs]].
      rewrite Es in Er. cbn in Er. subst s.
      split; [assumption|]. now exists r.
    + intros [Hg [r [Hr Er]]].
      apply (Permutation_in _ (Permutation_sym (ordenar_perm _ String.leb chaves))).
      apply nodup_In, in_map_iff. exists r. split; [now rewrite Er|].
      apply (Permutation_in _ (Permutation_sym (sort_values_perm _ recorte))).
      apply filter_In. split; [assumption|].
      apply isin_true. now exists g.
Qed.

(** A chart that is drawn has one series for each requested entity that
    some row of the table carries and no other series; a requested entity
    that no row carries is left out without error; the series come in the
    increasing order of their labels. *)
Theorem plotar_taxa_vagas_one_series_per_present_entity (t : TidyFrame)
    (ordem paises : list string) (nome_aba : string) (caminho : Path)
    (fs fs' : list Efeito) :
  plotar_taxa_vagas t ordem paises nome_aba caminho fs = (Ok tt, fs') ->
  exists fig,
    fs' = fs ++ [Mkdir (parent caminho); Savefig caminho fig] /\
    NoDup (map label (series fig)) /\
    StronglySorted (fun a b => String.leb a b = true) (map label (series fig)) /\
    (forall g, In g (map label (series fig)) <->
               In g paises /\ exists r, In r (registros t) /\ geo r = CStr g).
Proof.
  intros Hrun. unfold plotar_taxa_vagas in Hrun.
  pose proof (desenhar_labels_spec t paises) as Hlabels. cbv zeta in Hlabels.
  destruct (filter (fun r => isin paises (geo r)) (registros t))
    as [|r0 recorte] eqn:Hrec; [discriminate|].
  unfold bindIO, efeito in Hrun. inversion Hrun; subst; clear Hrun.
  eexists. split; [now rewrite <- app_assoc|]. exact Hlabels.
Qed.

Lemma plotar_taxa_vagas_one_series_witness :
  plotar_taxa_vagas tabela_contra_texto ["Q4-2020"; "Q1-2021"]
    ["Spain"; "Germany"] "Sheet 19" ["plots"; "grafico.png"] []
  = (Ok tt, [Mkdir ["plots"]; Savefig ["plots"; "grafico.png"] figura_contra_texto]) /\
  exists fig,
    [Mkdir ["plots"]; Savefig ["plots"; "grafico.png"] figura_contra_texto]
    = [] ++ [Mkdir (parent ["plots"; "grafico.png"]);
             Savefig ["plots"; "grafico.png"] fig] /\
    NoDup (map label (series fig)) /\
    StronglySorted (fun a b => String.leb a b = true) (map label (series fig)) /\
    (forall g, In g (map label (series fig)) <->
               In g ["Spain"; "Germany"] /\
               exists r, In r (registros tabela_contra_texto) /\ geo r = CStr g).
Proof.
  split; [reflexivity|].
  exact (plotar_taxa_vagas_one_series_per_present_entity tabela_contra_texto
           ["Q4-2020"; "Q1-2021"] ["Spain"; "Germany"] "Sheet 19"
           ["plots"; "grafico.png"] [] _ eq_refl).
Defined.

Lemma filter_or_length {A : Type} (p q : A -> bool) (l : list A) :
  (forall x, In x l -> p x = true -> q x = false) ->
  List.length (filter p l) + List.length (filter q l)
  = List.length (filter (fun x => p x || q x) l).
Proof.
  induction l as [|x l IH]; intros Hpq; [reflexivity|].
  assert (forall y, In y l -> p y = true -> q y = false) as Hpq'
      by (intros y Hy; apply Hpq; now right).
  specialize (IH Hpq'). cbn [filter].
  destruct (p x) eqn:Ep.
  - rewrite (Hpq x (or_introl eq_refl) Ep). cbn [orb List.length]. lia.
  - destruct (q x); cbn [orb List.length]; lia.
Qed.

Lemma filter_all {A : Type} (p : A -> bool) (l : list A) :
  (forall x, In x l -> p x = true) -> filter p l = l.
Proof.
  induction l as [|x l IH]; intros Hp; [reflexivity|].
  cbn [filter]. rewrite (Hp x (or_introl eq_refl)), IH; [reflexivity|].
  intros y Hy. apply Hp. now right.
Qed.

(** Groups taken for distinct keys share no row. *)
Lemma particao_length {A : Type} (key : A -> string) (l : list A)
    (chaves : list string) :
  NoDup chaves ->
  List.length (flat_map (fun g => filter (fun r => key r =? g) l) chaves)
  = List.length (filter (fun r => existsb (String.eqb (key r)) chaves) l).
Proof.
  induction chaves as [|g K IH]; intros Hnd.
  - cbn [flat_map existsb List.length]. now rewrite filter_nil.
  - inversion Hnd as [|? ? Hg HK]; subst.
    cbn [flat_map existsb]. rewrite length_app, (IH HK).
    apply filter_or_length.
    intros x _ Ex. apply String.eqb_eq in Ex. subst g.
    destruct (existsb (String.eqb (key x)) K) eqn:E; [|reflexivity].
    apply existsb_eqb_In in E. contradiction.
Qed.

Lemma groupby_length (l : list TidyRecord) :
  List.length (flat_map snd (groupby l)) = List.length l.
Proof.
  unfold groupby. rewrite flat_map_map. cbn [snd].
  set (chaves := ordenar String.leb
                   (nodup string_dec (map (fun r => texto (geo r)) l))).
  rewrite (particao_length (fun r => texto (geo r)) l chaves).
  - rewrite filter_all; [reflexivity|].
    intros r Hr. apply existsb_eqb_In.
    apply (Permutation_in _ (Permutation_sym (ordenar_perm _ String.leb _))).
    apply nodup_In. exact (in_map (fun r0 => texto (geo r0)) l r Hr).
  - apply (Permutation_NoDup (Permutation_sym (ordenar_perm _ String.leb _))).
    apply NoDup_nodup.
Qed.

Lemma groupby_nonempty (l : list TidyRecord) (gg : string * list TidyRecord) :
  In gg (groupby l) -> snd gg <> [].
Proof.
  unfold groupby. intros Hgg. apply in_map_iff in Hgg.
  destruct Hgg as [g [<- Hg]]. cbn [snd].
  apply (Permutation_in _ (ordenar_perm _ String.leb _)) in Hg.
  apply nodup_In, in_map_iff in Hg. destruct Hg as [r [Er Hr]].
  intros E.
  assert (In r (filter (fun r0 => texto (geo r0) =? g) l)) as HIn.
  { apply filter_In. split; [assumption|]. now apply String.eqb_eq. }
  now rewrite E in HIn.
Qed.

Lemma list_sum_flat_map {A B : Type} (F : A -> list B) (l : list A) :
  list_sum (map (fun a => List.length (F a)) l) = List.length (flat_map F l).
Proof.
  induction l as [|a l IH]; [reflexivity|].
  cbn [map flat_map]. rewrite length_app, <- IH. reflexivity.
Qed.

(** A chart that is drawn shows every row of a requested entity once: the
    series together have as many points as the table has such rows, and each
    series has at least one point and as many quarters as values. *)
Theorem plotar_taxa_vagas_draws_each_selected_row (t : TidyFrame)
    (ordem paises : list string) (nome_aba : string) (caminho : Path)
    (fs fs' : list Efeito) :
  plotar_taxa_vagas t ordem paises nome_aba caminho fs = (Ok tt, fs') ->
  exists fig,
    fs' = fs ++ [Mkdir (parent caminho); Savefig caminho fig] /\
    list_sum (map (fun s => List.length (ys s)) (series fig))
    = List.length (filter (fun r => isin paises (geo r)) (registros t)) /\
    Forall (fun s => List.length (xs s) = List.length (ys s) /\ ys s <> [])
           (series fig).
Proof.
  intros Hrun. unfold plotar_taxa_vagas in Hrun.
  destruct (filter (fun r => isin paises (geo r)) (registros t))
    as [|r0 recorte] eqn:Hrec; [discriminate|].
  unfold bindIO, efeito in Hrun. inversion Hrun; subst; clear Hrun.
  eexists. split; [now rewrite <- app_assoc|]. cbn [series].
  set (ordenado := sort_values (categorias t) (r0 :: recorte)).
  split.
  - unfold desenhar. rewrite map_map. cbn [ys].
    rewrite (map_ext _ (fun gg => List.length (snd gg)))
      by (intros gg; apply length_map).
    rewrite (list_sum_flat_map snd), groupby_length.
    unfold ordenado.
    apply (Permutation_length (sort_values_perm _ _)).
  - apply Forall_forall. intros s Hs. unfold desenhar in Hs.
    apply in_map_iff in Hs. destruct Hs as [gg [<- Hgg]]. cbn [xs ys].
    split; [now rewrite !length_map|].
    apply groupby_nonempty in Hgg.
    destruct (snd gg); [congruence|discriminate].
Qed.

Lemma plotar_taxa_vagas_draws_each_witness :
  plotar_taxa_vagas tabela_contra_texto ["Q4-2020"; "Q1-2021"]
    ["Spain"; "Germany"] "Sheet 19" ["plots"; "grafico.png"] []
  = (Ok tt, [Mkdir ["plots"]; Savefig ["plots"; "grafico.png"] figura_contra_texto]) /\
  exists fig,
    [Mkdir ["plots"]; Savefig ["plots"; "grafico.png"] figura_contra_texto]
    = [] ++ [Mkdir (parent ["plots"; "grafico.png"]);
             Savefig ["plots"; "grafico.png"] fig] /\
    list_sum (map (fun s => List.length (ys s)) (series fig))
    = List.length (filter (fun r => isin ["Spain"; "Germany"] (geo r))
                          (registros tabela_contra_texto)) /\
    Forall (fun s => List.length (xs s) = List.length (ys s) /\ ys s <> [])
           (series fig).
Proof.
  split; [reflexivity|].
  exact (plotar_taxa_vagas_draws_each_selected_row tabela_contra_texto
           ["Q4-2020"; "Q1-2021"] ["Spain"; "Germany"] "Sheet 19"
           ["plots"; "grafico.png"] [] _ eq_refl).
Defined.

Lemma isin_same_set (p1 p2 : list string) (c : Cell) :
  (forall g, In g p1 <-> In g p2) -> isin p1 c = isin p2 c.
Proof.
  intros Hset. destruct c as [f|s|]; try reflexivity. cbn [isin].
  destruct (existsb (String.eqb s) p1) eqn:E1,
           (existsb (String.eqb s) p2) eqn:E2; try reflexivity.
  - apply existsb_eqb_In, Hset, existsb_eqb_In in E1. congruence.
  - apply existsb_eqb_In, Hset, existsb_eqb_In in E2. congruence.
Qed.

(** Drawing depends on the requested entities as a set only: their order
    and repetitions change nothing; and the period order given beside the
    table changes nothing either, the order being the one of the
    categories of the table. *)
Theorem plotar_taxa_vagas_same_for_same_set (t : TidyFrame)
    (ordem1 ordem2 paises1 paises2 : list string) (nome_aba : string)
    (caminho : Path) (fs : list Efeito) :
  (forall g, In g paises1 <-> In g paises2) ->
  plotar_taxa_vagas t ordem1 paises1 nome_aba caminho fs
  = plotar_taxa_vagas t ordem2 paises2 nome_aba caminho fs.
Proof.
  intros Hset. unfold plotar_taxa_vagas.
  rewrite (filter_ext (fun r => isin paises1 (geo r))
                      (fun r => isin paises2 (geo r)));
    [reflexivity|].
  intros r. now apply isin_same_set.
Qed.

Lemma plotar_taxa_vagas_same_set_witness :
  (forall g, In g ["Spain"; "Germany"; "Spain"] <-> In g ["Germany"; "Spain"]) /\
  plotar_taxa_vagas tabela_contra_texto [] ["Spain"; "Germany"; "Spain"]
    "Sheet 19" ["plots"; "grafico.png"] []
  = plotar_taxa_vagas tabela_contra_texto ["Q4-2020"; "Q1-2021"]
      ["Germany"; "Spain"] "Sheet 19" ["plots"; "grafico.png"] [].
Proof.
  assert (forall g, In g ["Spain"; "Germany"; "Spain"]
                    <-> In g ["Germany"; "Spain"]) as Hset.
  { intros g. cbn. tauto. }
  split; [exact Hset|].
  exact (plotar_taxa_vagas_same_for_same_set tabela_contra_texto
           [] ["Q4-2020"; "Q1-2021"] ["Spain"; "Germany"; "Spain"]
           ["Germany"; "Spain"] "Sheet 19" ["plots"; "grafico.png"] [] Hset).
Defined.

(** ** Default file names *)

Lemma todos_append (p : ascii -> bool) (a b : string) :
  todos p (a ++ b) = todos p a && todos p b.
Proof.
  induction a as [|c a IH]; [reflexivity|].
  cbn [String.append todos]. now rewrite IH, andb_assoc.
Qed.

Lemma todos_weaken (p q : ascii -> bool) (s : string) :
  (forall c, p c = true -> q c = true) -> todos p s = true -> todos q s = true.
Proof.
  intros Hpq. induction s as [|c r IH]; [reflexivity|].
  cbn [todos]. intros E. apply andb_true_iff in E. destruct E as [Ec Er].
  now rewrite (Hpq c Ec), IH.
Qed.

(** Whatever the name of the sheet, the default names of the CSV file and
    of the image hold small letters, digits, underscores and the dot of the
    extension only: no path separator can come from a sheet name. *)
Theorem default_file_names_have_no_separator (nome_aba : string) :
  todos (fun c => slug_char c || Ascii.eqb c ".") (nome_csv_padrao nome_aba)
  = true /\
  todos (fun c => slug_char c || Ascii.eqb c ".") (nome_grafico_padrao nome_aba)
  = true /\
  contem "/" (nome_csv_padrao nome_aba) = false /\
  contem "/" (nome_grafico_padrao nome_aba) = false.
Proof.
  assert (todos (fun c => slug_char c || Ascii.eqb c ".") (slugificar nome_aba)
          = true) as Hslug.
  { apply (todos_weaken slug_char); [intros c ->; reflexivity|].
    apply slugificar_safe_chars_aux. }
  assert (forall s, todos (fun c => slug_char c || Ascii.eqb c ".") s = true ->
                    contem "/" s = false) as Hsep.
  { induction s as [|c r IH]; [reflexivity|]. cbn [todos contem].
    intros E. apply andb_true_iff in E. destruct E as [Ec Er].
    rewrite (IH Er), orb_false_r.
    destruct c as [[] [] [] [] [] [] [] []];
      solve [reflexivity | discriminate Ec]. }
  assert (todos (fun c => slug_char c || Ascii.eqb c ".")
                (nome_csv_padrao nome_aba) = true) as Hcsv.
  { unfold nome_csv_padrao. now rewrite !todos_append, Hslug. }
  assert (todos (fun c => slug_char c || Ascii.eqb c ".")
                (nome_grafico_padrao nome_aba) = true) as Hpng.
  { unfold nome_grafico_padrao. now rewrite !todos_append, Hslug. }
  repeat split; auto.
Qed.
